(** * VesselVerse consensus pipeline: a shallow embedding of [src/core/staple.py]

    The development follows the Python module function by function.  The
    pipeline computes on [float64] voxel values; a finite [float64] is
    modelled by the rational it denotes, and [nan] (which numpy returns for
    the mean of an empty selection) is modelled by [None].  Comparisons of
    floats are exact, so they are comparisons of rationals.  The float
    operations that round ([+], [-], [*], [/], [**], [np.mean], [np.std],
    [np.prod]) are an interface, [F64.Float64], over which thresholding and
    enhancement are parameterised: what is proved there holds of every
    arithmetic, numpy's included.  The exact arithmetic of the rationals is
    one instance; it is used to run the functions on concrete volumes.
    Label masks are [uint8] arrays and are modelled over [Z]; a raw label
    volume has float voxels or integer voxels, and the two kinds are kept
    apart, because the threshold filter treats them differently.  The
    filters of the imaging library (SimpleITK) that the module delegates to
    are an interface, [SimpleITK], over which the pipeline is parameterised.
    Where the documented behaviour of a library call decides what the Python
    code does (the inclusive bounds of [BinaryThreshold] and its refusal of a
    bound that the pixel type cannot hold, the unsigned parameters of the
    filters, the physical units of [GetPhysicalSize], the size test of
    [CopyInformation], the default tolerance of [np.allclose]) it is written
    out as a definition. *)

From Stdlib Require Import ZArith QArith Qround Qabs Qminmax Lia Lqa List.
From stdpp Require Import gmap strings list fin_maps.

Local Open Scope Z_scope.

(** ** Numbers *)

Module Num.

(** Python's [x < y] on two finite floats. *)
Definition Qltb (x y : Q) : bool := negb (Qle_bool y x).

(** A threshold that may be [nan]: every comparison against [nan] is false. *)
Definition gt_thr (p : Q) (t : option Q) : bool :=
  match t with
  | Some t => Qltb t p
  | None => false
  end.

(** Arithmetic on possibly-[nan] values: [nan] is absorbing. *)
Definition lift2 (f : Q -> Q -> Q) (a b : option Q) : option Q :=
  match a, b with
  | Some x, Some y => Some (f x y)
  | _, _ => None
  end.

Definition Qsum (xs : list Q) : Q := foldr Qplus 0%Q xs.

Definition Qlen (xs : list Q) : Q := inject_Z (Z.of_nat (length xs)).

(** The arithmetic mean of a non-empty list, without rounding. *)
Definition mean (xs : list Q) : Q := (Qsum xs / Qlen xs)%Q.

(** A square root for the arithmetic without rounding: the largest multiple
    of 2^-52 whose square is at most [q].  It is the value of [np.sqrt]
    where the root is such a multiple. *)
Definition Qsqrt (q : Q) : Q :=
  (Z.sqrt (Qfloor (q * inject_Z (2 ^ 104))) # 2 ^ 52)%Q.

(** The population standard deviation ([ddof = 0]) of a non-empty list,
    with exact deviations and that square root. *)
Definition stddev (xs : list Q) : Q :=
  Qsqrt (mean (map (fun x => (Qabs (x - mean xs) * Qabs (x - mean xs))%Q) xs)).

(** [np.mean] without rounding: [nan] on an empty array. *)
Definition np_mean (xs : list Q) : option Q :=
  match xs with
  | [] => None
  | _ => Some (mean xs)
  end.

(** [np.std] without rounding of the mean: [nan] on an empty array. *)
Definition np_std (xs : list Q) : option Q :=
  match xs with
  | [] => None
  | _ => Some (stddev xs)
  end.

(** [np.prod] of a tuple of floats, without rounding. *)
Definition np_prod (xs : list Q) : Q := foldr Qmult 1%Q xs.

(** Python's [min] and [max] on a sequence of floats.  The callers pass the
    spacing tuple or the nine entries of a principal-axes matrix, which are
    never empty; the value given here for the empty sequence is not used. *)
Definition Qmin_list (xs : list Q) : Q :=
  match xs with
  | [] => 0%Q
  | x :: xs => foldr Qmin x xs
  end.

Definition Qmax_list (xs : list Q) : Q :=
  match xs with
  | [] => 0%Q
  | x :: xs => foldr Qmax x xs
  end.

Fixpoint insert_sorted (x : Q) (xs : list Q) : list Q :=
  match xs with
  | [] => [x]
  | y :: ys => if Qle_bool x y then x :: y :: ys else y :: insert_sorted x ys
  end.

Definition Qsort (xs : list Q) : list Q := foldr insert_sorted [] xs.

(** The median of a non-empty list: the middle element of the sorted data,
    or the mean of the two middle elements. *)
Definition median (xs : list Q) : Q :=
  let s := Qsort xs in
  let n := length s in
  if Nat.even n
  then ((nth (n / 2 - 1)%nat s 0%Q + nth (n / 2)%nat s 0%Q) / 2)%Q
  else nth (n / 2)%nat s 0%Q.

(** [np.median]: [nan] on an empty array. *)
Definition np_median (xs : list Q) : option Q :=
  match xs with
  | [] => None
  | _ => Some (median xs)
  end.

(** [np.allclose(a, b, rtol=rtol)] on two tuples of the same length, with
    numpy's default [atol = 1e-8]: every pair satisfies
    [|a - b| <= atol + rtol * |b|]. *)
Definition atol : Q := (1 # 100000000)%Q.

Fixpoint np_allclose (a b : list Q) (rtol : Q) : bool :=
  match a, b with
  | x :: a', y :: b' =>
    Qle_bool (Qabs (x - y)) (atol + rtol * Qabs y) && np_allclose a' b' rtol
  | _, _ => true
  end.

(** [np.unique] on an integer array: the distinct values in increasing
    order. *)
Fixpoint insert_unique (x : Z) (xs : list Z) : list Z :=
  match xs with
  | [] => [x]
  | y :: ys =>
    if x <? y then x :: y :: ys
    else if x =? y then y :: ys
    else y :: insert_unique x ys
  end.

Definition np_unique (xs : list Z) : list Z := foldr insert_unique [] xs.

(** [len(np.unique(arr))] on a float array: the number of distinct values. *)
Fixpoint Qmem (x : Q) (xs : list Q) : bool :=
  match xs with
  | [] => false
  | y :: ys => Qeq_bool x y || Qmem x ys
  end.

Fixpoint count_unique (xs : list Q) : nat :=
  match xs with
  | [] => O
  | x :: xs' => if Qmem x xs' then count_unique xs' else S (count_unique xs')
  end.

(** [np.pi], the double nearest to pi: 884279719003555 / 2^48. *)
Definition np_pi : Q := (884279719003555 # 281474976710656)%Q.

(** The doubles that the literals [0.4], [0.6] and [1.1] denote:
    3602879701896397 / 2^53, 5404319552844595 / 2^53 and
    2476979795053773 / 2^51. *)
Definition double_0_4 : Q := (3602879701896397 # 9007199254740992)%Q.
Definition double_0_6 : Q := (5404319552844595 # 9007199254740992)%Q.
Definition double_1_1 : Q := (2476979795053773 # 2251799813685248)%Q.

(** Python's [int(x)] on a float: truncation toward zero. *)
Definition py_int (x : Q) : Z := Qnum x ÷ Z.pos (Qden x).

(** Python's [round(x)] on a float: to the nearest integer, ties to even. *)
Definition py_round (x : Q) : Z :=
  let f := Qfloor x in
  let r := (x - inject_Z f)%Q in
  match (r ?= 1 # 2)%Q with
  | Lt => f
  | Gt => f + 1
  | Eq => if Z.even f then f else f + 1
  end.

End Num.

(** ** Float arithmetic

    The operations of Python and numpy whose result is rounded to a
    [float64].  [mean] and [std] return [None] for [nan].  Nothing is assumed
    about them: the functions below only say where each operation is
    applied. *)

Module F64.

Class Float64 := {
  add : Q -> Q -> Q;              (* x + y *)
  sub : Q -> Q -> Q;              (* x - y *)
  mul : Q -> Q -> Q;              (* x * y *)
  div : Q -> Q -> Q;              (* x / y *)
  pow : Q -> Z -> Q;              (* x ** n *)
  mean : list Q -> option Q;      (* np.mean *)
  std : list Q -> option Q;       (* np.std *)
  prod : list Q -> Q              (* np.prod *)
}.

(** The arithmetic of the rationals, without rounding (the square root of
    [np_std] apart).  It agrees with [float64] wherever the exact results
    are themselves doubles.  It is the arithmetic of every statement made
    outside a section that assumes one: the runs on concrete volumes and the
    bounds of [adaptive_threshold_mean_bounds]. *)
#[global] Instance exact : Float64 := {|
  add := Qplus;
  sub := Qminus;
  mul := Qmult;
  div := Qdiv;
  pow := Qpower;
  mean := Num.np_mean;
  std := Num.np_std;
  prod := Num.np_prod
|}.

End F64.

(** ** Exceptions and results *)

(** What SimpleITK can fail on in this pipeline. *)
Inductive sitk_failure :=
  | CannotRead            (* ReadImage on a file that is not an image *)
  | SizeMismatch          (* CopyInformation between images of different size *)
  | CannotWrite           (* WriteImage or mkdir on a path that is not writable *)
  | ThresholdOutOfRange.  (* BinaryThreshold with a bound the pixel type cannot hold *)

(** One constructor per [raise] site; the Python class and message are given
    with each. *)
Inductive exn :=
  | AtLeastTwoSegmentations
      (* ValueError("STAPLE requires at least 2 segmentations") *)
  | ErrorReadingOriginal (path : string) (cause : exn)
      (* ValueError(f"Error reading original image {path}: {str(e)}") *)
  | ErrorReading (path : string) (cause : exn)
      (* ValueError(f"Error reading {seg_path}: {str(e)}") *)
  | NoSegmentationsProvided
      (* ValueError("No segmentations provided") *)
  | Expected3D (dim : nat)
      (* ValueError(f"Expected 3D image, but got {len(ref_size)}D") *)
  | DifferentDimensions (i : nat)
      (* ValueError(f"Segmentation {i} has different dimensions: ...") *)
  | DifferentSpacing (i : nat)
      (* ValueError(f"Segmentation {i} has different spacing: ...") *)
  | NonBinaryValues (unique_values : list Z)
      (* ValueError(f"Segmentation contains non-binary values: ...") *)
  | ErrorSaving (cause : exn)
      (* IOError(f"Error saving consensus segmentation: {str(e)}") *)
  | ZeroSizeReduction
      (* ValueError raised by np.min on an empty sequence *)
  | CannotConvertNaN
      (* ValueError raised by round() and int() on nan *)
  | NotUnsigned
      (* TypeError or OverflowError raised by the binding when an int that is
         negative or too large is passed for an unsigned parameter *)
  | SitkError (what : sitk_failure).
      (* RuntimeError raised by SimpleITK *)

Definition result (A : Type) : Type := exn + A.

Definition Ok {A} (a : A) : result A := inr a.
Definition raise {A} (e : exn) : result A := inl e.

Definition rbind {A B} (r : result A) (k : A -> result B) : result B :=
  match r with
  | inl e => inl e
  | inr a => k a
  end.

Notation "'let*' x ':=' r 'in' k" := (rbind r (fun x => k))
  (at level 10, x pattern, r at level 100, k at level 200).

(** [np.min]: raises on an empty sequence. *)
Definition np_min (xs : list Q) : result Q :=
  match xs with
  | [] => raise ZeroSizeReduction
  | _ => Ok (Num.Qmin_list xs)
  end.

(** ** Arrays and images *)

Module Sitk.

Record ndarray (T : Type) := mk_ndarray { shape : list Z; data : list T }.
Arguments mk_ndarray {T}.
Arguments shape {T}.
Arguments data {T}.

(** A volume: the spatial header and the voxel buffer (first index fastest). *)
Record Image (T : Type) := mk_Image {
  GetSize : list Z;
  GetSpacing : list Q;
  GetOrigin : list Q;
  GetDirection : list Q;
  buffer : list T
}.
Arguments mk_Image {T}.
Arguments GetSize {T}.
Arguments GetSpacing {T}.
Arguments GetOrigin {T}.
Arguments GetDirection {T}.
Arguments buffer {T}.

(** The numpy view has the axes reversed over the same buffer. *)
Definition GetArrayFromImage {T} (img : Image T) : ndarray T :=
  mk_ndarray (rev (GetSize img)) (buffer img).

Definition identity_direction (n : nat) : list Q :=
  flat_map (fun i => map (fun j => if Nat.eqb i j then 1%Q else 0%Q) (seq 0 n)) (seq 0 n).

(** A fresh image has unit spacing, zero origin and identity direction. *)
Definition GetImageFromArray {T} (arr : ndarray T) : Image T :=
  mk_Image (rev (shape arr))
           (map (fun _ => 1%Q) (shape arr))
           (map (fun _ => 0%Q) (shape arr))
           (identity_direction (length (shape arr)))
           (data arr).

(** [dst.CopyInformation(src)]: origin, spacing and direction of [src] replace
    those of [dst]; SimpleITK raises when the two sizes differ. *)
Definition CopyInformation {T U} (dst : Image T) (src : Image U) : result (Image T) :=
  if decide (GetSize dst = GetSize src)
  then Ok (mk_Image (GetSize dst) (GetSpacing src) (GetOrigin src) (GetDirection src) (buffer dst))
  else raise (SitkError SizeMismatch).

(** A voxelwise operation keeps the header. *)
Definition pixelwise {T U} (f : T -> U) (img : Image T) : Image U :=
  mk_Image (GetSize img) (GetSpacing img) (GetOrigin img) (GetDirection img)
           (map f (buffer img)).

Definition of_bool (b : bool) : Z := if b then 1 else 0.

(** [sitk.Cast(img > c, sitk.sitkUInt8)] on a float image. *)
Definition Greater (img : Image Q) (c : Q) : Image Z :=
  pixelwise (fun v => of_bool (Num.Qltb c v)) img.

(** [sitk.Cast(img > c, sitk.sitkUInt8)] on an integer image. *)
Definition GreaterZ (img : Image Z) (c : Z) : Image Z :=
  pixelwise (fun v => of_bool (c <? v)) img.

(** [sitk.BinaryThreshold] on an image of a float pixel type: a voxel is
    inside when [lowerThreshold <= v <= upperThreshold], both bounds
    included; [upperThreshold = None] stands for [float('inf')]. *)
Definition BinaryThreshold (img : Image Q) (lowerThreshold : Q)
    (upperThreshold : option Q) (insideValue outsideValue : Z) : Image Z :=
  pixelwise (fun v =>
    if Qle_bool lowerThreshold v &&
       match upperThreshold with Some u => Qle_bool v u | None => true end
    then insideValue else outsideValue) img.

(** [sitk.BinaryThreshold(img, lowerThreshold, float('inf'), ...)] on an
    image of an integer pixel type: the library converts both bounds to the
    pixel type and raises when one of them does not fit; infinity fits no
    integer type. *)
Definition BinaryThreshold_integer_unbounded (img : Image Z) (lowerThreshold : Q)
    (insideValue outsideValue : Z) : result (Image Z) :=
  raise (SitkError ThresholdOutOfRange).

(** An image as [sitk.ReadImage] returns it: the pixel type is a float type
    ([float32], [float64]) or an integer type ([uint8], [int16], ...). *)
Inductive TypedImage :=
  | FloatImage (img : Image Q)
  | IntegerImage (img : Image Z).

(** The voxels of either kind as numbers, under the same header. *)
Definition voxel_values (img : TypedImage) : Image Q :=
  match img with
  | FloatImage img => img
  | IntegerImage img => pixelwise inject_Z img
  end.

(** The parameters [SetKernelRadius] and [SetMinimumObjectSize] are a
    [uint32] and a [uint64]; the binding raises on an int outside the
    range. *)
Definition as_unsigned (bits : Z) (n : Z) : result Z :=
  if (0 <=? n) && (n <? 2 ^ bits) then Ok n else raise NotUnsigned.

(** One entry of [LabelShapeStatisticsImageFilter.GetLabels()]. *)
Record LabelObject := mk_LabelObject {
  GetNumberOfPixels : Z;
  GetPrincipalAxes : list Q    (* the 3x3 matrix of principal directions, flattened *)
}.

(** [GetPhysicalSize(label)], as the library documents it: the number of
    voxels of the object times the physical volume of one voxel of the
    labelled image. *)
Definition GetPhysicalSize (labelled : Image Z) (o : LabelObject) : Q :=
  (inject_Z (GetNumberOfPixels o) * Num.np_prod (GetSpacing labelled))%Q.

(** The filters the module delegates to.  [radius] and [min_size] are the
    integers the Python code hands over, once the binding has accepted them
    as unsigned. *)
Class SimpleITK := {
  BinaryDilate : Z -> Image Z -> Image Z;
  BinaryErode : Z -> Image Z -> Image Z;
  BinaryMorphologicalClosing : Z -> Image Z -> Image Z;
  ConnectedComponent : Image Z -> Image Z;
  RelabelComponent : Z -> Image Z -> Image Z;
  LabelShapeStatistics : Image Z -> list LabelObject;
  STAPLE : Z -> list (Image Z) -> Image Q
}.

End Sitk.

(** ** The functions of [staple.py] *)

Module Staple.
Import Sitk.

Section WithLibrary.
Context {sitk : SimpleITK} {f64 : F64.Float64}.

(** The per-segmentation entry of [vessel_stats]. *)
Record SegStats := mk_SegStats {
  median_volume_mm3 : Q;
  median_diameter_mm : Q;
  median_length_mm : Q;
  min_volume_mm3 : Q;
  min_diameter_mm : Q;
  min_length_mm : Q
}.

Record AllStats := mk_AllStats {
  recommended_radius_mm : option Q;
  recommended_min_length_mm : option Q;
  recommended_min_volume_mm3 : option Q;
  detailed_stats : list SegStats
}.

(** The three measurements the loop body appends for one label.  The
    products, and the medians below, are written without rounding. *)
Definition volume_mm3_of (spacing : list Q) (components : Image Z) (label : LabelObject) : Q :=
  let volume_voxels := GetPhysicalSize components label in
  (volume_voxels * Num.np_prod spacing)%Q.

Definition major_length_of (spacing : list Q) (label : LabelObject) : Q :=
  (Num.Qmax_list (GetPrincipalAxes label) * Num.Qmin_list spacing)%Q.

Definition minor_length_of (spacing : list Q) (label : LabelObject) : Q :=
  (Num.Qmin_list (GetPrincipalAxes label) * Num.Qmin_list spacing)%Q.

(** The body of the loop over segmentations.  On a segmentation without any
    label the three medians are [nan] (numpy only warns) and [np.min] then
    raises, so the dictionary is never built. *)
Definition analyze_one (spacing : list Q) (seg : Image Z) : result SegStats :=
  let components := ConnectedComponent seg in
  let labels := LabelShapeStatistics components in
  let volumes_mm3 := map (volume_mm3_of spacing components) labels in
  let diameters_mm := map (minor_length_of spacing) labels in
  let lengths_mm := map (major_length_of spacing) labels in
  let* min_volume := np_min volumes_mm3 in
  let* min_diameter := np_min diameters_mm in
  let* min_length := np_min lengths_mm in
  Ok (mk_SegStats (Num.median volumes_mm3) (Num.median diameters_mm)
                  (Num.median lengths_mm) min_volume min_diameter min_length).

Fixpoint analyze_each (spacing : list Q) (segmentations : list (Image Z))
    : result (list SegStats) :=
  match segmentations with
  | [] => Ok []
  | seg :: rest =>
    let* st := analyze_one spacing seg in
    let* sts := analyze_each spacing rest in
    Ok (st :: sts)
  end.

Definition analyze_vessel_characteristics (segmentations : list (Image Z))
    (original_image : Image Q) : result AllStats :=
  let spacing := GetSpacing original_image in
  let* vessel_stats := analyze_each spacing segmentations in
  Ok (mk_AllStats
        (Num.np_median (map (fun stats => (median_diameter_mm stats / 2)%Q) vessel_stats))
        (Num.np_median (map min_length_mm vessel_stats))
        (Num.np_median (map min_volume_mm3 vessel_stats))
        vessel_stats).

(** [int(round(vessel_radius_mm / min(spacing)))]: the quotient is a
    float, [round] is applied to that float. *)
Definition kernel_radius_of (vessel_radius_mm : Q) (spacing : list Q) : Z :=
  Num.py_round (F64.div vessel_radius_mm (Num.Qmin_list spacing)).

(** [int(np.pi * (vessel_radius_mm**2) * min_vessel_length_mm / np.prod(spacing))] *)
Definition min_object_size_of (vessel_radius_mm min_vessel_length_mm : Q)
    (spacing : list Q) : Z :=
  let min_vessel_volume_mm3 :=
    F64.mul (F64.mul Num.np_pi (F64.pow vessel_radius_mm 2)) min_vessel_length_mm in
  let voxel_volume := F64.prod spacing in
  Num.py_int (F64.div min_vessel_volume_mm3 voxel_volume).

(** The two parameters are floats and may be [nan]; [round] and [int] raise
    on [nan].  [SetKernelRadius] takes a [uint32] and [SetMinimumObjectSize]
    a [uint64]. *)
Definition enhance_vessel_connectivity (binary_mask : Image Z)
    (original_image : Image Q)
    (vessel_radius_mm min_vessel_length_mm : option Q) : result (Image Z) :=
  let spacing := GetSpacing original_image in
  match vessel_radius_mm, min_vessel_length_mm with
  | Some radius, Some min_length =>
    let kernel_radius := kernel_radius_of radius spacing in
    let min_object_size := min_object_size_of radius min_length spacing in
    let* kernel_radius := as_unsigned 32 kernel_radius in
    let connected := BinaryDilate kernel_radius binary_mask in
    let connected := BinaryErode kernel_radius connected in
    let components := ConnectedComponent connected in
    let* min_object_size := as_unsigned 64 min_object_size in
    let final := RelabelComponent min_object_size components in
    let binary_final := GreaterZ final 0 in
    CopyInformation binary_final original_image
  | _, _ => raise CannotConvertNaN
  end.

Definition preprocess_segmentation (seg : Image Z) : Image Z :=
  let processed := BinaryDilate 1 seg in
  BinaryMorphologicalClosing 1 processed.

(** [vessel_mask = np.zeros_like(prob_array)], then [vessel_mask += seg] for
    every segmentation, then [vessel_mask > 0].  The arrays have one shape at
    every call (numpy raises otherwise). *)
Definition accumulate (acc : list Q) (seg_array : list Z) : list Q :=
  zip_with (fun a s => (a + inject_Z s)%Q) acc seg_array.

Definition vessel_mask_of (prob_array : list Q) (segmentations : list (Image Z))
    : list bool :=
  let zeros := map (fun _ => 0%Q) prob_array in
  let summed := fold_left (fun acc seg => accumulate acc (data (GetArrayFromImage seg)))
                          segmentations zeros in
  map (fun s => Num.Qltb 0 s) summed.

(** Boolean-mask indexing [arr[mask]]. *)
Fixpoint select (mask : list bool) (arr : list Q) : list Q :=
  match mask, arr with
  | m :: mask', x :: arr' => if m then x :: select mask' arr' else select mask' arr'
  | _, _ => []
  end.

Definition compute_optimal_thresholds (consensus_prob : Image Q)
    (segmentations : list (Image Z)) : option Q * option Q :=
  let prob_array := data (GetArrayFromImage consensus_prob) in
  let vessel_mask := vessel_mask_of prob_array segmentations in
  let vessel_probs := select vessel_mask prob_array in
  let non_vessel_probs := select (map negb vessel_mask) prob_array in
  let vessel_mean := F64.mean vessel_probs in
  let vessel_std := F64.std vessel_probs in
  let non_vessel_mean := F64.mean non_vessel_probs in
  let non_vessel_std := F64.std non_vessel_probs in
  let lower_threshold := Num.lift2 F64.sub vessel_mean vessel_std in
  let higher_threshold := Num.lift2 F64.add non_vessel_mean non_vessel_std in
  (lower_threshold, higher_threshold).

Definition adaptive_staple_threshold (consensus_prob : Image Q)
    (segmentations : list (Image Z)) : Image Z :=
  let prob_array := GetArrayFromImage consensus_prob in
  let vessel_mask := vessel_mask_of (data prob_array) segmentations in
  let '(lower_thresh, higher_thresh) :=
    compute_optimal_thresholds consensus_prob segmentations in
  let threshold :=
    map (fun m : bool => if m then lower_thresh else higher_thresh) vessel_mask in
  let binary :=
    zip_with (fun p t => of_bool (Num.gt_thr p t)) (data prob_array) threshold in
  GetImageFromArray (mk_ndarray (shape prob_array) binary).

(** The earlier thresholding, with the two fixed levels: the doubles that
    the literals 0.4 and 0.6 denote. *)
Definition adaptive_staple_threshold_old (consensus_prob : Image Q)
    (segmentations : list (Image Z)) : Image Z :=
  let prob_array := GetArrayFromImage consensus_prob in
  let zeros := map (fun _ => 0%Q) (data prob_array) in
  let vessel_mask :=
    fold_left (fun acc seg => accumulate acc (data (GetArrayFromImage seg)))
              segmentations zeros in
  let threshold :=
    map (fun s => if Num.Qltb 0 s then Num.double_0_4 else Num.double_0_6) vessel_mask in
  let binary :=
    zip_with (fun p t => of_bool (Num.Qltb t p)) (data prob_array) threshold in
  GetImageFromArray (mk_ndarray (shape prob_array) binary).

(** The loop of [verify_spatial_consistency] from segmentation [i] on. *)
Fixpoint verify_from (ref_size : list Z) (ref_spacing : list Q) (i : nat)
    (segmentations : list (Image Z)) : result unit :=
  match segmentations with
  | [] => Ok tt
  | seg :: rest =>
    if negb (bool_decide (GetSize seg = ref_size))
    then raise (DifferentDimensions i)
    else if negb (Num.np_allclose (GetSpacing seg) ref_spacing (1 # 1000))
    then raise (DifferentSpacing i)
    else verify_from ref_size ref_spacing (S i) rest
  end.

Definition verify_spatial_consistency (reference_image : Image Q)
    (segmentations : list (Image Z)) : result unit :=
  match segmentations with
  | [] => raise NoSegmentationsProvided
  | _ =>
    let ref_size := GetSize reference_image in
    let ref_spacing := GetSpacing reference_image in
    if negb (Nat.eqb (length ref_size) 3)
    then raise (Expected3D (length ref_size))
    else verify_from ref_size ref_spacing 0 segmentations
  end.

Definition verify_segmentation_values (seg : Image Z) : result unit :=
  let arr := data (GetArrayFromImage seg) in
  let unique_values := Num.np_unique arr in
  if negb (bool_decide (unique_values = [0; 1])) &&
     negb (bool_decide (unique_values = [0])) &&
     negb (bool_decide (unique_values = [1]))
  then raise (NonBinaryValues unique_values)
  else Ok tt.

(** [convert_to_binary_mask] on an image of a float pixel type.  The lower
    bound is the double that the literal 1.1 denotes. *)
Definition convert_to_binary_mask (seg : Image Q) : Image Z :=
  if (2 <? Num.count_unique (data (GetArrayFromImage seg)))%nat
  then GreaterZ (BinaryThreshold seg Num.double_1_1 None 1 0) 0
  else Greater seg 0.

(** [convert_to_binary_mask] on an image of an integer pixel type: with more
    than two distinct values the threshold filter is called, and raises on
    its infinite upper bound. *)
Definition convert_to_binary_mask_integer (seg : Image Z) : result (Image Z) :=
  if (2 <? length (Num.np_unique (data (GetArrayFromImage seg))))%nat
  then
    let* seg := BinaryThreshold_integer_unbounded seg Num.double_1_1 1 0 in
    Ok (GreaterZ seg 0)
  else Ok (GreaterZ seg 0).

(** [convert_to_binary_mask] on an image as it was read. *)
Definition convert_to_binary_mask_typed (seg : TypedImage) : result (Image Z) :=
  match seg with
  | FloatImage img => Ok (convert_to_binary_mask img)
  | IntegerImage img => convert_to_binary_mask_integer img
  end.

(** *** The world [create_staple_consensus] runs in *)

(** A file holds a volume of a float pixel type, a volume of an integer
    pixel type, or something that is not an image. *)
Inductive File :=
  | NotAnImage
  | Volume (img : Image Q)
  | IntegerVolume (img : Image Z).

(** What the function prints. *)
Inductive line :=
  | SegmentationFileNotFound (seg_path : string)
  | NoValidSegmentationsFound
  | ErrorAnalyzingVesselCharacteristics (e : exn)
  | NotPossibleToEnhance (output_path : string)
  | SavingWithoutEnhancement.

Record World := mk_World {
  fs : gmap string File;
  writable : string -> bool;
  stdout : list line
}.

Definition print (l : line) (w : World) : World :=
  mk_World (fs w) (writable w) (stdout w ++ [l]).

Definition path_exists (w : World) (path : string) : bool :=
  bool_decide (is_Some (fs w !! path)).

(** [sitk.ReadImage], with the pixel type of the file. *)
Definition ReadTypedImage (w : World) (path : string) : result TypedImage :=
  match fs w !! path with
  | Some (Volume img) => Ok (FloatImage img)
  | Some (IntegerVolume img) => Ok (IntegerImage img)
  | _ => raise (SitkError CannotRead)
  end.

(** [sitk.ReadImage] where the pixel type plays no part (the reference
    image, of which the pipeline uses the header). *)
Definition ReadImage (w : World) (path : string) : result (Image Q) :=
  let* img := ReadTypedImage w path in
  Ok (voxel_values img).

(** [Path(output_path).parent.mkdir(...)] followed by [sitk.WriteImage]; the
    consensus is a [uint8] image. *)
Definition WriteImage (img : Image Z) (path : string) (w : World) : result unit * World :=
  if writable w path
  then (Ok tt, mk_World (<[path := IntegerVolume img]> (fs w)) (writable w) (stdout w))
  else (raise (SitkError CannotWrite), w).

(** The keyword parameters, bound.  [visualize] and [plot_verification] stay
    at their default [False]: no caller in the repository sets them. *)
Record Config := mk_Config {
  confidence_threshold : Q;
  do_preprocessing : bool;
  do_adaptive_thresholding : bool;
  do_vessel_enhancement : bool
}.

(** The body of the loop that reads one segmentation, inside its [try]. *)
Definition read_one (w : World) (original_image : Image Q) (seg_path : string)
    : result (Image Z) :=
  let* seg := ReadTypedImage w seg_path in
  let* seg := convert_to_binary_mask_typed seg in
  let* _ := verify_segmentation_values seg in
  CopyInformation seg original_image.

Fixpoint read_segmentations (original_image : Image Q) (segmentation_paths : list string)
    (w : World) : result (list (Image Z)) * World :=
  match segmentation_paths with
  | [] => (Ok [], w)
  | seg_path :: rest =>
    if negb (path_exists w seg_path)
    then read_segmentations original_image rest (print (SegmentationFileNotFound seg_path) w)
    else
      match read_one w original_image seg_path with
      | inl e => (raise (ErrorReading seg_path e), w)
      | inr seg =>
        match read_segmentations original_image rest w with
        | (inl e, w') => (inl e, w')
        | (inr segs, w') => (Ok (seg :: segs), w')
        end
      end
  end.

(** The thresholding statement. *)
Definition threshold_stage (cfg : Config) (consensus_prob : Image Q)
    (preprocessed_segs : list (Image Z)) : Image Z :=
  if do_adaptive_thresholding cfg
  then adaptive_staple_threshold consensus_prob preprocessed_segs
  else Greater consensus_prob (confidence_threshold cfg).

(** The [try] block of the enhancement. *)
Definition try_enhance (binary_consensus : Image Z) (preprocessed_segs : list (Image Z))
    (original_image : Image Q) : result (Image Z) :=
  let* vessel_stats := analyze_vessel_characteristics preprocessed_segs original_image in
  enhance_vessel_connectivity binary_consensus original_image
    (recommended_radius_mm vessel_stats) (recommended_min_length_mm vessel_stats).

Definition enhancement_stage (cfg : Config) (output_path : string)
    (binary_consensus : Image Z) (preprocessed_segs : list (Image Z))
    (original_image : Image Q) (w : World) : Image Z * World :=
  if do_vessel_enhancement cfg
  then
    match try_enhance binary_consensus preprocessed_segs original_image with
    | inr enhanced => (enhanced, w)
    | inl e =>
      (binary_consensus,
       print SavingWithoutEnhancement
         (print (NotPossibleToEnhance output_path)
            (print (ErrorAnalyzingVesselCharacteristics e) w)))
    end
  else (binary_consensus, w).

(** Everything after the segmentations are read and found non-empty. *)
Definition fuse_and_save (cfg : Config) (output_path : string)
    (original_image : Image Q) (segmentations : list (Image Z)) (w : World)
    : result (option (Image Z)) * World :=
  match verify_spatial_consistency original_image segmentations with
  | inl e => (inl e, w)
  | inr _ =>
    let preprocessed_segs :=
      if do_preprocessing cfg then map preprocess_segmentation segmentations
      else segmentations in
    let consensus_prob := STAPLE 1 preprocessed_segs in
    let binary_consensus := threshold_stage cfg consensus_prob preprocessed_segs in
    let '(binary_consensus, w) :=
      enhancement_stage cfg output_path binary_consensus preprocessed_segs original_image w in
    match CopyInformation binary_consensus original_image with
    | inl e => (inl e, w)
    | inr binary_consensus =>
      match WriteImage binary_consensus output_path w with
      | (inl e, w) => (raise (ErrorSaving e), w)
      | (inr _, w) => (Ok (Some binary_consensus), w)
      end
    end
  end.

Definition create_staple_consensus (original_image_path : string)
    (segmentation_paths : list string) (output_path : string) (cfg : Config)
    (w : World) : result (option (Image Z)) * World :=
  if (length segmentation_paths <? 2)%nat
  then (raise AtLeastTwoSegmentations, w)
  else
    match ReadImage w original_image_path with
    | inl e => (raise (ErrorReadingOriginal original_image_path e), w)
    | inr original_image =>
      match read_segmentations original_image segmentation_paths w with
      | (inl e, w) => (inl e, w)
      | (inr [], w) => (Ok None, print NoValidSegmentationsFound w)
      | (inr segmentations, w) =>
        fuse_and_save cfg output_path original_image segmentations w
      end
    end.

End WithLibrary.
End Staple.

(** ** The viewer of [staple.py]: layout and slice navigation *)

Module Viewer.

(** The original image, one plot per segmentation, and the consensus when
    there is one. *)
Definition n_plots (n_segmentations : nat) (has_consensus : bool) : nat :=
  let n := (n_segmentations + 1)%nat in
  if has_consensus then (n + 1)%nat else n.

Definition n_rows : nat := 2.

(** [(n_plots + 1) // 2] *)
Definition n_cols (n_plots : nat) : nat := ((n_plots + 1) / 2)%nat.

(** Row and column computed for plot [i]. *)
Definition cell (n_plots i : nat) : nat * nat :=
  (i / n_cols n_plots, i mod n_cols n_plots)%nat.

(** Python's [min] and [max] of two floats: the first argument unless the
    second is strictly smaller (larger). *)
Definition py_min (x y : Q) : Q := if Num.Qltb y x then y else x.
Definition py_max (x y : Q) : Q := if Num.Qltb x y then y else x.

(** The value [on_key] hands to [slider.set_val]; another key leaves the
    slider alone. *)
Definition on_key (key : string) (val valmin valmax : Q) : Q :=
  if (key =? "up")%string || (key =? "right")%string
  then py_min (val + 1) valmax
  else if (key =? "down")%string || (key =? "left")%string
  then py_max (val - 1) valmin
  else val.

(** The slider over a volume of [n_slices] slices: [valmin = 0],
    [valmax = n_slices - 1], [valinit = n_slices // 2], then the keys. *)
Definition slider_after (n_slices : Z) (keys : list string) : Q :=
  fold_left (fun val key => on_key key val 0 (inject_Z (n_slices - 1)))
            keys (inject_Z (n_slices / 2)).

(** [slice_idx = int(slider.val)] in [update]. *)
Definition slice_idx (val : Q) : Z := Num.py_int val.

End Viewer.

(** ** The registries of [model_config.py] *)

Module Registry.

(** A Python [dict] with string keys: insertion order is kept, and
    assigning to a present key replaces its value in place. *)
Fixpoint dict_set {V} (k : string) (v : V) (d : list (string * V)) : list (string * V) :=
  match d with
  | [] => [(k, v)]
  | (k', v') :: d' =>
    if (k' =? k)%string then (k, v) :: d' else (k', v') :: dict_set k v d'
  end.

Fixpoint dict_get {V} (k : string) (d : list (string * V)) : option V :=
  match d with
  | [] => None
  | (k', v') :: d' => if (k' =? k)%string then Some v' else dict_get k d'
  end.

Definition dict_values {V} (d : list (string * V)) : list V := map snd d.

Definition dict_contains {V} (k : string) (d : list (string * V)) : bool :=
  match dict_get k d with Some _ => true | None => false end.

(** [name in names] on a list of strings. *)
Definition str_in (name : string) (names : list string) : bool :=
  existsb (fun n => (n =? name)%string) names.

(** A model: the processor maps the expected path of a file to the path
    the model really uses; it may look at the disk. *)
Record ModelConfig := mk_ModelConfig {
  model_name : string;
  model_prefix : string;
  model_owner : string;
  filename_processor : option (Staple.World -> string -> string)
}.

Record DatasetConfig := mk_DatasetConfig {
  dataset_name : string;
  unique_name : string;
  base_path : string;
  image_dir : string;
  image_suffix : string;
  supported_models : list string;
  modality : string;
  year : option string;
  file_pattern : string;
  base_model_name : string
}.

(** [DatasetRegistry] *)
Definition register_dataset (config : DatasetConfig)
    (datasets : list (string * DatasetConfig)) : list (string * DatasetConfig) :=
  dict_set (unique_name config) config datasets.

Definition get_dataset (datasets : list (string * DatasetConfig)) (name : string)
    : option DatasetConfig :=
  dict_get name datasets.

Definition get_dataset_by_unique_name (datasets : list (string * DatasetConfig))
    (name : string) : option DatasetConfig :=
  List.find (fun dataset => (unique_name dataset =? name)%string) (dict_values datasets).

(** [ModelRegistry] *)
Definition register_model (model_config : ModelConfig)
    (models : list (string * ModelConfig)) : list (string * ModelConfig) :=
  dict_set (model_name model_config) model_config models.

Definition get_model (models : list (string * ModelConfig)) (name : string)
    : option ModelConfig :=
  dict_get name models.

Definition get_models_for_dataset (models : list (string * ModelConfig))
    (datasets : list (string * DatasetConfig)) (name : string) : list ModelConfig :=
  match get_dataset datasets name with
  | None => []
  | Some dataset_config =>
    map snd (List.filter (fun entry => str_in (fst entry) (supported_models dataset_config))
                         models)
  end.

Definition get_file_processor (models : list (string * ModelConfig))
    (datasets : list (string * DatasetConfig)) (model dataset : string)
    : option (Staple.World -> string -> string) :=
  match get_model models model with
  | None => None
  | Some m =>
    match get_dataset datasets dataset with
    | None => None
    | Some d =>
      if negb (str_in model (supported_models d)) then None
      else filename_processor m
    end
  end.

(** The registries a script ends up with: empty, then one registration per
    configuration, in order. *)
Definition registered_models (configs : list ModelConfig) : list (string * ModelConfig) :=
  fold_left (fun models m => register_model m models) configs [].

Definition registered_datasets (configs : list DatasetConfig)
    : list (string * DatasetConfig) :=
  fold_left (fun datasets d => register_dataset d datasets) configs [].

(** [MedicalImageDataset._setup_models]: the raters of a dataset. *)
Definition setup_models (models : list (string * ModelConfig)) (config : DatasetConfig)
    : list string :=
  map model_name
    (List.filter
       (fun model =>
          negb (model_name model
                =? String.append (dataset_name config)
                     (String.append "_" (base_model_name config)))%string
          && str_in (model_name model) (supported_models config))
       (dict_values models)).

End Registry.

(** ** The callers: [dataset.py] and [scripts_py/compute_staple.py] *)

Module Dataset.
Import Sitk Staple.

(** A value of a keyword dictionary. *)
Inductive pyval :=
  | PyFloat (q : Q)
  | PyBool (b : bool).

(** Python's numeric reading and truth value of such a value. *)
Definition as_float (v : pyval) : Q :=
  match v with
  | PyFloat q => q
  | PyBool b => if b then 1%Q else 0%Q
  end.

Definition truthy (v : pyval) : bool :=
  match v with
  | PyFloat q => negb (Qeq_bool q 0)
  | PyBool b => b
  end.

(** Calling [create_staple_consensus(..., **kwargs)]: a missing key takes the
    default of the signature. *)
Definition bind_kwargs (kwargs : gmap string pyval) : Config :=
  mk_Config
    (as_float (default (PyFloat (1 # 2)) (kwargs !! "confidence_threshold")))
    (truthy (default (PyBool true) (kwargs !! "do_preprocessing")))
    (truthy (default (PyBool true) (kwargs !! "do_adaptive_thresholding")))
    (truthy (default (PyBool true) (kwargs !! "do_vessel_enhancement"))).

(** [base_kwargs = {**kwargs}] followed by [base_kwargs.update({...})]. *)
Definition base_kwargs (kwargs : gmap string pyval) : gmap string pyval :=
  <["do_vessel_enhancement" := PyBool false]>
    (<["do_adaptive_thresholding" := PyBool false]>
       (<["do_preprocessing" := PyBool false]> kwargs)).

(** [main]: the keyword arguments handed to [dataset.compute_staple], from the
    parameters loaded from the YAML file:
    [confidence_threshold=staple_params.get('confidence_threshold', 0.8)]. *)
Definition main_kwargs (staple_params : gmap string pyval) : gmap string pyval :=
  {[ "confidence_threshold" :=
       default (PyFloat (4 # 5)) (staple_params !! "confidence_threshold") ]}.

(** [str.replace(old, new)] for a non-empty [old]. *)
Fixpoint replace_from (old new : string) (skip : nat) (s : string) : string :=
  match s with
  | EmptyString => EmptyString
  | String c s' =>
    match skip with
    | S k => replace_from old new k s'
    | O =>
      if String.prefix old s
      then String.append new (replace_from old new (String.length old - 1) s')
      else String c (replace_from old new 0 s')
    end
  end.

Definition replace (s old new : string) : string := replace_from old new 0 s.

(** [old in s] for strings. *)
Fixpoint contains (old s : string) : bool :=
  String.prefix old s ||
  match s with
  | EmptyString => false
  | String _ s' => contains old s'
  end.

(** The parameter file, as [yaml.safe_load] returns it: the four sections
    [load_staple_params] reads, each possibly absent. *)
Record YamlParams := mk_YamlParams {
  yaml_staple : option (gmap string pyval);
  yaml_modalities : option (gmap string (gmap string pyval));
  yaml_years : option (gmap string (gmap string pyval));
  yaml_datasets : option (gmap string (gmap string pyval))
}.

(** [d.get(section, {}).get(key, {})] *)
Definition section_of (section : option (gmap string (gmap string pyval))) (key : string)
    : gmap string pyval :=
  default ∅ (default ∅ section !! key).

(** [load_staple_params]: [None] stands for the [AttributeError] of a
    dataset that is not in the registry.  In [{**a, **b}] the later
    dictionary wins; the union of maps is biased to the left. *)
Definition load_staple_params (datasets : list (string * Registry.DatasetConfig))
    (params : YamlParams) (dataset_name : string) : option (gmap string pyval) :=
  match Registry.get_dataset datasets dataset_name with
  | None => None
  | Some dataset_config =>
    let modality_params :=
      section_of (yaml_modalities params) (Registry.modality dataset_config) in
    let year_params :=
      match Registry.year dataset_config with
      | Some y => if (y =? "")%string then ∅ else section_of (yaml_years params) y
      | None => ∅
      end in
    let dataset_params := section_of (yaml_datasets params) dataset_name in
    let base_params := default ∅ (yaml_staple params) in
    Some (dataset_params ∪ (year_params ∪ (modality_params ∪ base_params)))
  end.


(** [main]: [force_recompute=staple_params.get('force_recompute', False)] *)
Definition main_force_recompute (staple_params : gmap string pyval) : bool :=
  truthy (default (PyBool false) (staple_params !! "force_recompute")).

Section WithLibrary.
Context {sitk : SimpleITK} {f64 : F64.Float64}.

(** The two calls [compute_staple] makes for a case that it does not skip:
    the enhanced run, then the base run; an exception of the first run
    propagates. *)
Definition compute_staple_case (kwargs : gmap string pyval) (source_path : string)
    (segmentation_paths : list string) (output_path : string) (w : World)
    : result (option (Image Z)) * World :=
  match create_staple_consensus source_path segmentation_paths output_path
          (bind_kwargs kwargs) w with
  | (inl e, w) => (inl e, w)
  | (inr _, w) =>
    let base_output_path := replace output_path "/STAPLE/" "/STAPLE_base/" in
    create_staple_consensus source_path segmentation_paths base_output_path
      (bind_kwargs (base_kwargs kwargs)) w
  end.

End WithLibrary.
End Dataset.

(** ** A small executable instance of the library interface

    Used only to run the pipeline on concrete volumes: the structuring
    element covers a single voxel and no two voxels are neighbours, so the
    morphological filters change nothing, every foreground voxel is a
    component of its own, and the estimator returns the fraction of raters
    that mark the voxel. *)

Module Toy.
Import Sitk.

Definition vote (segs : list (Image Z)) (v : nat) : Q :=
  (Num.Qsum (map (fun seg => inject_Z (nth v (buffer seg) 0%Z)) segs)
   / inject_Z (Z.of_nat (length segs)))%Q.

Definition staple (foreground : Z) (segs : list (Image Z)) : Image Q :=
  match segs with
  | [] => mk_Image [] [] [] [] []
  | seg :: _ =>
    mk_Image (GetSize seg) (GetSpacing seg) (GetOrigin seg) (GetDirection seg)
             (map (vote segs) (seq 0 (length (buffer seg))))
  end.

Definition single_voxel_objects (img : Image Z) : list LabelObject :=
  map (fun _ => mk_LabelObject 1 (identity_direction 3))
      (List.filter (fun x => negb (x =? 0)) (buffer img)).

Definition relabel (min_size : Z) (img : Image Z) : Image Z :=
  if 1 <? min_size then pixelwise (fun _ => 0) img else img.

#[export] Instance toy_sitk : SimpleITK := {|
  BinaryDilate := fun _ img => img;
  BinaryErode := fun _ img => img;
  BinaryMorphologicalClosing := fun _ img => img;
  ConnectedComponent := fun img => img;
  RelabelComponent := relabel;
  LabelShapeStatistics := single_voxel_objects;
  STAPLE := staple
|}.

(** A 2x1x1 volume with unit header. *)
Definition volume {T} (spacing : list Q) (voxels : list T) : Image T :=
  mk_Image [2; 1; 1] spacing [0; 0; 0]%Q (identity_direction 3) voxels.

Definition unit_spacing : list Q := [1; 1; 1]%Q.

(** An n x 1 x 1 volume with unit header. *)
Definition row {T} (voxels : list T) : Image T :=
  mk_Image [Z.of_nat (length voxels); 1; 1] unit_spacing [0; 0; 0]%Q (identity_direction 3)
           voxels.

End Toy.

(** * Vocabulary of the statements *)

Import Sitk Staple Dataset.

(** A world with a reference volume and two rater masks, all writable. *)
Definition demo_world : World :=
  mk_World (<["img" := Volume (Toy.volume Toy.unit_spacing [10; 20]%Q)]>
            (<["a" := Volume (Toy.volume Toy.unit_spacing [0; 1]%Q)]>
             (<["b" := Volume (Toy.volume Toy.unit_spacing [1; 1]%Q)]> ∅)))
           (fun _ => true) [].

(** A world of three-voxel volumes: a reference image, a float mask with the
    values 0, 1, 2, an integer mask with the same values, and an integer
    mask with the values 0 and 2. *)
Definition label_reference : Image Q := Toy.row [10; 20; 30]%Q.

Definition label_world : World :=
  mk_World (<["img" := Volume label_reference]>
            (<["float" := Volume (Toy.row [0; 1; 2]%Q)]>
             (<["labels" := IntegerVolume (Toy.row [0; 1; 2])]>
              (<["mask" := IntegerVolume (Toy.row [0; 2; 2])]> ∅))))
           (fun _ => true) [].

(** An image carries one spacing per axis. *)
Definition well_formed {T} (img : Image T) : Prop :=
  length (GetSpacing img) = length (GetSize img).

(** The test [np.allclose] applies to one pair of spacings. *)
Definition within_tolerance (s r : Q) : Prop :=
  (Qabs (s - r) <= Num.atol + (1 # 1000) * Qabs r)%Q.

Definition congruent (reference_image : Image Q) (seg : Image Z) : Prop :=
  GetSize seg = GetSize reference_image /\
  Forall2 within_tolerance (GetSpacing seg) (GetSpacing reference_image).

(** The error the loop raises at a segmentation that is not congruent. *)
Definition mismatch_at (reference_image : Image Q) (i : nat) (seg : Image Z) : exn :=
  if bool_decide (GetSize seg = GetSize reference_image)
  then DifferentSpacing i
  else DifferentDimensions i.

Definition demo_reference : Image Q := Toy.volume Toy.unit_spacing [10; 20]%Q.

(** The logical OR of the rater masks at voxel [v]. *)
Definition in_candidate (segs : list (Image Z)) (v : nat) : bool :=
  existsb (fun seg => negb (default 0 (buffer seg !! v) =? 0)) segs.

(** The probabilities of the voxels on one side of that mask, in voxel
    order: the candidate region for [inside = true], the background for
    [inside = false]. *)
Definition region (inside : bool) (segs : list (Image Z)) (P : list Q) : list Q :=
  map snd (List.filter (fun iv => Bool.eqb (in_candidate segs (fst iv)) inside)
                       (zip (seq 0 (length P)) P)).

Definition same_shape (P : Image Q) (segs : list (Image Z)) : Prop :=
  Forall (fun seg => length (buffer seg) = length (buffer P)) segs.

(** The voxels of a [uint8] mask are not negative. *)
Definition unsigned (segs : list (Image Z)) : Prop :=
  Forall (fun seg => Forall (fun x => 0 <= x) (buffer seg)) segs.

(** The filters return an image of the size of their input. *)
Class SizePreserving (sitk : SimpleITK) : Prop := {
  BinaryDilate_size : forall r img, GetSize (BinaryDilate r img) = GetSize img;
  BinaryErode_size : forall r img, GetSize (BinaryErode r img) = GetSize img;
  ConnectedComponent_size : forall img, GetSize (ConnectedComponent img) = GetSize img;
  RelabelComponent_size : forall n img, GetSize (RelabelComponent n img) = GetSize img
}.

Definition binary (x : Z) : Prop := x = 0 \/ x = 1.

(** The error is, or is caused by, the non-binary check. *)
Fixpoint invalid_mask (e : exn) : bool :=
  match e with
  | NonBinaryValues _ => true
  | ErrorReadingOriginal _ cause => invalid_mask cause
  | ErrorReading _ cause => invalid_mask cause
  | ErrorSaving cause => invalid_mask cause
  | _ => false
  end.

(** Every volume on disk has at least one voxel. *)
Definition nonempty_volumes (w : World) : Prop :=
  (forall (path : string) (img : Image Q),
     fs w !! path = Some (Volume img) -> buffer img <> []) /\
  (forall (path : string) (img : Image Z),
     fs w !! path = Some (IntegerVolume img) -> buffer img <> []).

(** The three lines printed in the [except] branch. *)
Definition warning (e : exn) (output_path : string) : list line :=
  [ErrorAnalyzingVesselCharacteristics e; NotPossibleToEnhance output_path;
   SavingWithoutEnhancement].

(** A world with a reference volume, a rater mask and an all-background
    rater mask, all writable. *)
Definition empty_mask_world : World :=
  mk_World (<["img" := Volume (Toy.volume Toy.unit_spacing [10; 20]%Q)]>
            (<["a" := Volume (Toy.volume Toy.unit_spacing [0; 1]%Q)]>
             (<["z" := IntegerVolume (Toy.volume Toy.unit_spacing [0; 0])]> ∅)))
           (fun _ => true) [].

(** Every entry of a registry is filed under the name it carries. *)
Definition keyed {V} (name : V -> string) (d : list (string * V)) : Prop :=
  Forall (fun entry => name (snd entry) = fst entry) d.

(** The mask has no connected component. *)
Definition no_component {sitk : SimpleITK} (seg : Image Z) : Prop :=
  LabelShapeStatistics (ConnectedComponent seg) = [].

(** * Properties *)

Section NumberFacts.

Lemma Qltb_lt (x y : Q) : Num.Qltb x y = true <-> (x < y)%Q.
Proof.
  unfold Num.Qltb. rewrite negb_true_iff. split.
  - intros H. apply Qnot_le_lt. intros Hle.
    apply Qle_bool_iff in Hle. congruence.
  - intros H. apply not_true_is_false. intros Hle.
    apply Qle_bool_iff in Hle. apply (Qlt_not_le _ _ H Hle).
Qed.

Lemma Qltb_ge (x y : Q) : Num.Qltb x y = false <-> (y <= x)%Q.
Proof.
  unfold Num.Qltb. rewrite negb_false_iff. apply Qle_bool_iff.
Qed.

Lemma of_bool_1 (b : bool) : of_bool b = 1 <-> b = true.
Proof. destruct b; simpl; split; intros H; try reflexivity; discriminate. Qed.

Lemma of_bool_binary (b : bool) : of_bool b = 0 \/ of_bool b = 1.
Proof. destruct b; simpl; auto. Qed.

Lemma some_of_bool_1 (b : bool) : Some (of_bool b) = Some 1 <-> b = true.
Proof. destruct b; simpl; split; intros H; try reflexivity; discriminate. Qed.

Lemma some_of_bool_0 (b : bool) : Some (of_bool b) = Some 0 <-> b = false.
Proof. destruct b; simpl; split; intros H; try reflexivity; discriminate. Qed.

Lemma Qle_bool_false (x y : Q) : Qle_bool x y = false <-> (y < x)%Q.
Proof.
  rewrite <- Qltb_lt. unfold Num.Qltb. rewrite negb_true_iff. reflexivity.
Qed.

End NumberFacts.

Example py_round_half_even : Num.py_round (5 # 2) = 2 /\ Num.py_round (7 # 2) = 4.
Proof. split; reflexivity. Qed.

Example py_int_truncates : Num.py_int (-(7 # 2)) = -3 /\ Num.py_int (7 # 2) = 3.
Proof. split; reflexivity. Qed.

Example np_median_even : Num.np_median [4; 1; 3; 2]%Q = Some ((2 + 3) / 2)%Q.
Proof. reflexivity. Qed.

Example replace_staple_dir :
  replace "/data/STAPLE/case1.nii.gz" "/STAPLE/" "/STAPLE_base/" = "/data/STAPLE_base/case1.nii.gz".
Proof. reflexivity. Qed.

(** ** The spatial header and the voxel buffer *)

Section Headers.

Lemma CopyInformation_buffer {T U} (dst : Image T) (src : Image U) (img : Image T) :
  CopyInformation dst src = Ok img -> buffer img = buffer dst.
Proof.
  unfold CopyInformation. case_decide; intros Hc; [|discriminate].
  injection Hc as <-. reflexivity.
Qed.

Lemma CopyInformation_same_size {T U} (dst : Image T) (src : Image U) :
  GetSize dst = GetSize src ->
  CopyInformation dst src =
    Ok (mk_Image (GetSize dst) (GetSpacing src) (GetOrigin src) (GetDirection src) (buffer dst)).
Proof. intros H. unfold CopyInformation. rewrite decide_True by exact H. reflexivity. Qed.

Lemma Greater_lookup (img : Image Q) (c : Q) (v : nat) (p : Q) :
  buffer img !! v = Some p ->
  buffer (Greater img c) !! v = Some (of_bool (Num.Qltb c p)).
Proof. intros H. simpl. rewrite list_lookup_fmap, H. reflexivity. Qed.

End Headers.

(** ** Fixed-threshold mode and the base run *)

Section BaseRun.
Context {sitk : SimpleITK} {f64 : F64.Float64}.

Lemma base_kwargs_config (kwargs : gmap string pyval) :
  bind_kwargs (base_kwargs kwargs) =
    mk_Config (confidence_threshold (bind_kwargs kwargs)) false false false.
Proof.
  unfold bind_kwargs, base_kwargs. simpl.
  repeat (rewrite lookup_insert_ne by discriminate).
  rewrite lookup_insert_eq.
  rewrite (lookup_insert_ne _ "do_vessel_enhancement" "do_adaptive_thresholding") by discriminate.
  rewrite lookup_insert_eq.
  rewrite lookup_insert_eq.
  reflexivity.
Qed.

Lemma main_kwargs_threshold (staple_params : gmap string pyval) :
  confidence_threshold (bind_kwargs (main_kwargs staple_params)) =
    as_float (default (PyFloat (4 # 5)) (staple_params !! "confidence_threshold")).
Proof.
  unfold bind_kwargs, main_kwargs. simpl. rewrite lookup_singleton_eq. reflexivity.
Qed.

(** With the three switches off, a run that returns an image returns the
    probability map of the segmentations it read, cut at the threshold of
    its configuration. *)
Lemma flat_run_output (t : Q) (src : string) (paths : list string) (out : string)
    (w w' : World) (img : Image Z) :
  create_staple_consensus src paths out (mk_Config t false false false) w
    = (Ok (Some img), w') ->
  exists original segs w1,
    ReadImage w src = Ok original /\
    read_segmentations original paths w = (Ok segs, w1) /\
    buffer img = buffer (Greater (STAPLE 1 segs) t).
Proof.
  unfold create_staple_consensus.
  destruct (length paths <? 2)%nat; [discriminate|].
  destruct (ReadImage w src) as [e|original]; [discriminate|].
  destruct (read_segmentations original paths w) as [[e|segs] w1] eqn:Hread;
    [discriminate|].
  destruct segs as [|seg segs]; [discriminate|].
  unfold fuse_and_save.
  destruct (verify_spatial_consistency original (seg :: segs)); [discriminate|].
  cbn [do_preprocessing do_adaptive_thresholding do_vessel_enhancement
       threshold_stage enhancement_stage confidence_threshold].
  destruct (CopyInformation (Greater (STAPLE 1 (seg :: segs)) t) original)
    as [e|copied] eqn:Hcopy; [discriminate|].
  destruct (WriteImage copied out w1) as [[e|?] w2]; [discriminate|].
  intros Hret. injection Hret as -> _.
  exists original, (seg :: segs), w1.
  split; [reflexivity|]. split; [exact Hread|].
  exact (CopyInformation_buffer _ _ _ Hcopy).
Qed.

(** The same for the configuration [compute_staple] derives for its second
    call, whatever keyword arguments it was given. *)
Lemma base_config_output (kwargs : gmap string pyval) (src : string)
    (paths : list string) (out : string) (w w' : World) (img : Image Z) :
  create_staple_consensus src paths out (bind_kwargs (base_kwargs kwargs)) w
    = (Ok (Some img), w') ->
  exists original segs w1,
    ReadImage w src = Ok original /\
    read_segmentations original paths w = (Ok segs, w1) /\
    forall (v : nat) (p : Q),
      buffer (STAPLE 1 segs) !! v = Some p ->
      (buffer img !! v = Some 1 <-> (confidence_threshold (bind_kwargs kwargs) < p)%Q).
Proof.
  rewrite base_kwargs_config. intros Hrun.
  destruct (flat_run_output _ _ _ _ _ _ _ Hrun) as (original & segs & w1 & Ho & Hr & Hb).
  exists original, segs, w1.
  split; [assumption|]. split; [assumption|].
  intros v p Hp. rewrite Hb, (Greater_lookup _ _ _ _ Hp).
  rewrite some_of_bool_1. apply Qltb_lt.
Qed.

(** C1, as amended: the base image that the orchestrator produces for a case
    (its second call, with preprocessing, adaptive thresholding and
    enhancement off) marks voxel [v] exactly when the probability there
    exceeds the configured [confidence_threshold]: the value of the
    parameter file, or 0.8 when the file has none.  No run of the
    orchestrator uses the 0.5 of the signature. *)
Theorem base_run_cuts_at_configured_threshold
    (staple_params : gmap string pyval) (src : string) (paths : list string)
    (out : string) (w w' : World) (img : Image Z) :
  compute_staple_case (main_kwargs staple_params) src paths out w = (Ok (Some img), w') ->
  exists original segs w1 w2,
    ReadImage w1 src = Ok original /\
    read_segmentations original paths w1 = (Ok segs, w2) /\
    forall (v : nat) (p : Q),
      buffer (STAPLE 1 segs) !! v = Some p ->
      (buffer img !! v = Some 1 <->
       (as_float (default (PyFloat (4 # 5)) (staple_params !! "confidence_threshold")) < p)%Q).
Proof.
  unfold compute_staple_case.
  destruct (create_staple_consensus src paths out (bind_kwargs (main_kwargs staple_params)) w)
    as [[e|enhanced] w1]; [discriminate|].
  intros Hbase.
  destruct (base_config_output _ _ _ _ _ _ _ Hbase) as (original & segs & w2 & Ho & Hr & Hrule).
  rewrite main_kwargs_threshold in Hrule.
  exists original, segs, w1, w2. auto.
Qed.

End BaseRun.

Lemma base_run_cuts_at_configured_threshold_witness :
  exists img w',
    compute_staple_case (sitk := Toy.toy_sitk) (main_kwargs ∅) "img" ["a"; "b"]
      "/STAPLE/out" demo_world = (Ok (Some img), w') /\
    exists original segs w1 w2,
      ReadImage w1 "img" = Ok original /\
      read_segmentations original ["a"; "b"] w1 = (Ok segs, w2) /\
      forall (v : nat) (p : Q),
        buffer (STAPLE (SimpleITK := Toy.toy_sitk) 1 segs) !! v = Some p ->
        (buffer img !! v = Some 1 <->
         (as_float (default (PyFloat (4 # 5)) ((∅ : gmap string pyval) !! "confidence_threshold")) < p)%Q).
Proof.
  eexists _, _. split.
  - vm_compute. reflexivity.
  - eapply (base_run_cuts_at_configured_threshold (sitk := Toy.toy_sitk) ∅ "img" ["a"; "b"]
              "/STAPLE/out" demo_world).
    vm_compute. reflexivity.
Defined.

(** C1, as stated, fails: with no threshold in the parameter file the base
    run of the orchestrator cuts at 0.8, so a voxel of probability 0.6 is
    above 0.5 and still background. *)
Lemma base_run_half_counterexample :
  ~ (forall (staple_params : gmap string pyval) (P : Image Q) (segs : list (Image Z))
       (v : nat) (p : Q),
       buffer P !! v = Some p ->
       (buffer (threshold_stage (bind_kwargs (base_kwargs (main_kwargs staple_params))) P segs) !! v
          = Some 1 <-> (1 # 2 < p)%Q)).
Proof.
  intros Hclaim.
  specialize (Hclaim ∅ (Toy.volume Toy.unit_spacing [3 # 5; 1 # 10]%Q) [] 0%nat (3 # 5)%Q eq_refl).
  destruct Hclaim as [_ Hback].
  assert (Hlt : (1 # 2 < 3 # 5)%Q) by (unfold Qlt; simpl; lia).
  specialize (Hback Hlt). vm_compute in Hback. discriminate.
Qed.

(** ** Spatial consistency *)

Section SpatialConsistency.

Lemma np_allclose_Forall2 (a b : list Q) :
  length a = length b ->
  Num.np_allclose a b (1 # 1000) = true <-> Forall2 within_tolerance a b.
Proof.
  revert b. induction a as [|x a IH]; intros [|y b] Hlen; simpl in Hlen; try discriminate.
  - split; [constructor | reflexivity].
  - injection Hlen as Hlen. simpl. rewrite andb_true_iff, Qle_bool_iff, (IH b Hlen).
    split.
    + intros [Hx Hrest]. constructor; assumption.
    + intros Hall. inversion Hall; subst. split; assumption.
Qed.

Lemma congruent_checks (reference_image : Image Q) (seg : Image Z) :
  well_formed reference_image -> well_formed seg ->
  congruent reference_image seg <->
  bool_decide (GetSize seg = GetSize reference_image) = true /\
  Num.np_allclose (GetSpacing seg) (GetSpacing reference_image) (1 # 1000) = true.
Proof.
  unfold well_formed, congruent. intros Hr Hs.
  rewrite bool_decide_eq_true. split.
  - intros [Hsize Hsp]. split; [assumption|].
    apply np_allclose_Forall2; [|assumption]. congruence.
  - intros [Hsize Hclose]. split; [assumption|].
    apply np_allclose_Forall2; [|assumption]. congruence.
Qed.

Lemma verify_from_spec (reference_image : Image Q) (segs : list (Image Z)) :
  well_formed reference_image ->
  Forall well_formed segs ->
  forall i : nat,
    (Forall (congruent reference_image) segs /\
     verify_from (GetSize reference_image) (GetSpacing reference_image) i segs = Ok tt) \/
    (exists (k : nat) (seg : Image Z),
       segs !! k = Some seg /\
       Forall (congruent reference_image) (take k segs) /\
       ~ congruent reference_image seg /\
       verify_from (GetSize reference_image) (GetSpacing reference_image) i segs
         = raise (mismatch_at reference_image (i + k) seg)).
Proof.
  intros Href Hwf. induction Hwf as [|seg segs Hseg Hsegs IH]; intros i.
  - left. split; [constructor | reflexivity].
  - simpl. pose proof (congruent_checks reference_image seg Href Hseg) as Hc.
    destruct (bool_decide (GetSize seg = GetSize reference_image)) eqn:Hsize; simpl.
    + destruct (Num.np_allclose (GetSpacing seg) (GetSpacing reference_image) (1 # 1000))
        eqn:Hclose; simpl.
      * assert (Hok : congruent reference_image seg) by (apply Hc; auto).
        destruct (IH (S i)) as [[Hall Hv] | (k & s & Hk & Hpre & Hbad & Hv)].
        -- left. split; [constructor; assumption | exact Hv].
        -- right. exists (S k), s. simpl. repeat split; try assumption.
           ++ constructor; assumption.
           ++ rewrite Hv. f_equal. f_equal. lia.
      * right. exists 0%nat, seg. simpl. repeat split.
        -- constructor.
        -- intros Hok. apply Hc in Hok. destruct Hok as [_ Hok]. discriminate.
        -- unfold mismatch_at. rewrite Hsize. f_equal. f_equal. lia.
    + right. exists 0%nat, seg. simpl. repeat split.
      * constructor.
      * intros Hok. apply Hc in Hok. destruct Hok as [Hok _]. discriminate.
      * unfold mismatch_at. rewrite Hsize. f_equal. f_equal. lia.
Qed.

(** C2, as amended: for a 3-D reference and a non-empty list of masks, the
    validator fails at the first mask whose voxel dimensions differ from the
    reference (different dimensions) or one of whose spacings [s] is further
    from the reference spacing [r] than [1e-8 + 0.001 * |r|] (different
    spacing); when there is no such mask it succeeds.  It returns nothing
    else and changes none of its arguments. *)
Theorem verify_spatial_consistency_spec
    (reference_image : Image Q) (segmentations : list (Image Z)) :
  length (GetSize reference_image) = 3%nat ->
  segmentations <> [] ->
  well_formed reference_image ->
  Forall well_formed segmentations ->
  (Forall (congruent reference_image) segmentations /\
   verify_spatial_consistency reference_image segmentations = Ok tt) \/
  (exists (i : nat) (seg : Image Z),
     segmentations !! i = Some seg /\
     Forall (congruent reference_image) (take i segmentations) /\
     ~ congruent reference_image seg /\
     verify_spatial_consistency reference_image segmentations
       = raise (mismatch_at reference_image i seg)).
Proof.
  intros Hdim Hne Href Hwf. unfold verify_spatial_consistency.
  destruct segmentations as [|seg segs]; [congruence|].
  rewrite Hdim. simpl negb. cbv iota.
  exact (verify_from_spec reference_image (seg :: segs) Href Hwf 0).
Qed.

End SpatialConsistency.

Lemma verify_spatial_consistency_spec_witness :
  (Forall (congruent demo_reference) [Toy.volume Toy.unit_spacing [0; 1]] /\
   verify_spatial_consistency demo_reference [Toy.volume Toy.unit_spacing [0; 1]] = Ok tt) \/
  (exists (i : nat) (seg : Image Z),
     [Toy.volume Toy.unit_spacing [0; 1]] !! i = Some seg /\
     Forall (congruent demo_reference) (take i [Toy.volume Toy.unit_spacing [0; 1]]) /\
     ~ congruent demo_reference seg /\
     verify_spatial_consistency demo_reference [Toy.volume Toy.unit_spacing [0; 1]]
       = raise (mismatch_at demo_reference i seg)).
Proof.
  apply (verify_spatial_consistency_spec demo_reference [Toy.volume Toy.unit_spacing [0; 1]]).
  - reflexivity.
  - discriminate.
  - reflexivity.
  - repeat constructor.
Defined.

(** C2, as stated, fails: a mask whose spacing is 1.001000005 against a
    reference spacing of 1 is off by more than 0.1 percent, and the
    validator accepts it, because [np.allclose] adds its default absolute
    tolerance of 1e-8 to the relative one. *)
Lemma verify_spacing_counterexample :
  ~ (forall (reference_image : Image Q) (segmentations : list (Image Z)),
       length (GetSize reference_image) = 3%nat ->
       well_formed reference_image ->
       Forall well_formed segmentations ->
       (exists (seg : Image Z) (axis : nat) (s r : Q),
          seg ∈ segmentations /\
          GetSpacing seg !! axis = Some s /\
          GetSpacing reference_image !! axis = Some r /\
          ((1 # 1000) * Qabs r < Qabs (s - r))%Q) ->
       exists e, verify_spatial_consistency reference_image segmentations = raise e).
Proof.
  intros Hclaim.
  pose (seg := Toy.volume [1001000005 # 1000000000; 1; 1]%Q [0; 1]).
  destruct (Hclaim demo_reference [seg; seg]) as [e He].
  - reflexivity.
  - reflexivity.
  - repeat constructor.
  - exists seg, 0%nat, (1001000005 # 1000000000)%Q, 1%Q.
    split; [left|]. split; [reflexivity|]. split; [reflexivity|].
    vm_compute. reflexivity.
  - vm_compute in He. discriminate.
Qed.

(** ** Adaptive thresholding *)

Section AdaptiveThreshold.
Context {f64 : F64.Float64}.

Lemma accumulate_lookup (acc : list Q) (seg_array : list Z) (v : nat) (a : Q) (s : Z) :
  acc !! v = Some a -> seg_array !! v = Some s ->
  accumulate acc seg_array !! v = Some (a + inject_Z s)%Q.
Proof.
  intros Ha Hs. unfold accumulate. rewrite lookup_zip_with, Ha. simpl.
  rewrite Hs. reflexivity.
Qed.

Lemma accumulate_length (acc : list Q) (seg_array : list Z) :
  length seg_array = length acc -> length (accumulate acc seg_array) = length acc.
Proof. intros H. unfold accumulate. rewrite length_zip_with. lia. Qed.

Lemma summed_positive (segs : list (Image Z)) :
  unsigned segs ->
  forall (acc : list Q) (v : nat) (a : Q),
    Forall (fun seg => length (buffer seg) = length acc) segs ->
    acc !! v = Some a -> (0 <= a)%Q ->
    exists a' : Q,
      fold_left (fun acc seg => accumulate acc (buffer seg)) segs acc !! v
        = Some a' /\
      (Num.Qltb 0 a' = Num.Qltb 0 a || in_candidate segs v).
Proof.
  intros Huns. induction Huns as [|seg segs Hseg Hsegs IH]; intros acc v a Hlen Ha Hpos.
  - exists a. split; [exact Ha|]. simpl. rewrite orb_false_r. reflexivity.
  - inversion Hlen as [|? ? Hl Hls]; subst. simpl.
    assert (Hv : (v < length (buffer seg))%nat)
      by (rewrite Hl; eapply lookup_lt_Some; eassumption).
    destruct (lookup_lt_is_Some_2 _ _ Hv) as [s Hs].
    assert (Hs0 : 0 <= s) by exact (Forall_lookup_1 _ _ _ _ Hseg Hs).
    pose proof (accumulate_lookup acc (buffer seg) v a s Ha Hs) as Hacc.
    assert (Hpos' : (0 <= a + inject_Z s)%Q).
    { rewrite Zle_Qle in Hs0. change (inject_Z 0) with 0%Q in Hs0. lra. }
    destruct (IH (accumulate acc (buffer seg)) v (a + inject_Z s)%Q) as [a' [Hl' Ha']].
    + rewrite accumulate_length by exact Hl. exact Hls.
    + exact Hacc.
    + exact Hpos'.
    + exists a'. split; [exact Hl'|]. rewrite Ha', Hs. simpl.
      rewrite orb_assoc. f_equal.
      destruct (Z.eqb_spec s 0) as [->|Hne]; simpl.
      * rewrite orb_false_r.
        destruct (Num.Qltb 0 a) eqn:Hlt.
        -- apply Qltb_lt. apply Qltb_lt in Hlt. change (inject_Z 0) with 0%Q. lra.
        -- apply Qltb_ge. apply Qltb_ge in Hlt. change (inject_Z 0) with 0%Q. lra.
      * rewrite orb_true_r. apply Qltb_lt.
        assert (Hs1 : 0 < s) by lia.
        rewrite Zlt_Qlt in Hs1. change (inject_Z 0) with 0%Q in Hs1. lra.
Qed.

(** The mask the code builds by summing is the logical OR of the masks. *)
Lemma vessel_mask_is_or (P : Image Q) (segs : list (Image Z)) :
  same_shape P segs -> unsigned segs ->
  vessel_mask_of (buffer P) segs = map (in_candidate segs) (seq 0 (length (buffer P))).
Proof.
  intros Hshape Huns. apply list_eq. intros v. unfold vessel_mask_of. simpl.
  rewrite !list_lookup_fmap.
  destruct (decide (v < length (buffer P))%nat) as [Hv|Hv].
  - rewrite lookup_seq_lt by exact Hv. simpl.
    destruct (summed_positive segs Huns (map (fun _ => 0%Q) (buffer P)) v 0%Q) as [a' [Hl Ha']].
    + rewrite length_map. exact Hshape.
    + rewrite list_lookup_fmap. destruct (lookup_lt_is_Some_2 _ _ Hv) as [p ->]. reflexivity.
    + lra.
    + rewrite Hl. simpl. rewrite Ha'. reflexivity.
  - rewrite lookup_seq_ge by lia. simpl.
    rewrite lookup_ge_None_2; [reflexivity|].
    assert (Hlen : forall (segs : list (Image Z)) (acc : list Q),
               Forall (fun seg => length (buffer seg) = length acc) segs ->
               length (fold_left (fun acc seg => accumulate acc (buffer seg)) segs acc)
                 = length acc).
    { clear. induction segs as [|seg segs IH]; intros acc Hall; [reflexivity|].
      inversion Hall as [|? ? Hl Hls]; subst. simpl.
      rewrite IH; rewrite accumulate_length by exact Hl; [reflexivity | exact Hls]. }
    rewrite Hlen; rewrite length_map; [lia | exact Hshape].
Qed.

Lemma select_filter (f : nat -> bool) (P : list Q) (k : nat) :
  select (map f (seq k (length P))) P
    = map snd (List.filter (fun iv => f (fst iv)) (zip (seq k (length P)) P)).
Proof.
  revert k. induction P as [|p P IH]; intros k; [reflexivity|].
  simpl. destruct (f k); simpl; rewrite IH; reflexivity.
Qed.

Lemma select_region (inside : bool) (segs : list (Image Z)) (P : list Q) :
  select (map (fun v => Bool.eqb (in_candidate segs v) inside) (seq 0 (length P))) P
    = region inside segs P.
Proof. apply select_filter. Qed.

Lemma thresholds_on_regions (P : Image Q) (segs : list (Image Z)) :
  same_shape P segs -> unsigned segs ->
  compute_optimal_thresholds P segs =
    (Num.lift2 F64.sub (F64.mean (region true segs (buffer P)))
                       (F64.std (region true segs (buffer P))),
     Num.lift2 F64.add (F64.mean (region false segs (buffer P)))
                       (F64.std (region false segs (buffer P)))).
Proof.
  intros Hshape Huns. unfold compute_optimal_thresholds. simpl.
  rewrite (vessel_mask_is_or P segs Hshape Huns).
  rewrite <- !select_region. rewrite map_map.
  assert (Ht : map (in_candidate segs) (seq 0 (length (buffer P)))
               = map (fun v => Bool.eqb (in_candidate segs v) true) (seq 0 (length (buffer P)))).
  { apply map_ext. intros v. destruct (in_candidate segs v); reflexivity. }
  assert (Hf : map (fun v => negb (in_candidate segs v)) (seq 0 (length (buffer P)))
               = map (fun v => Bool.eqb (in_candidate segs v) false) (seq 0 (length (buffer P)))).
  { apply map_ext. intros v. destruct (in_candidate segs v); reflexivity. }
  rewrite Ht, Hf. reflexivity.
Qed.

(** The output voxel, whatever the regions are. *)
Lemma adaptive_lookup (P : Image Q) (segs : list (Image Z)) (v : nat) (p : Q) :
  same_shape P segs -> unsigned segs ->
  buffer P !! v = Some p ->
  buffer (adaptive_staple_threshold P segs) !! v =
    Some (of_bool (Num.gt_thr p
      (if in_candidate segs v
       then Num.lift2 F64.sub (F64.mean (region true segs (buffer P)))
                              (F64.std (region true segs (buffer P)))
       else Num.lift2 F64.add (F64.mean (region false segs (buffer P)))
                              (F64.std (region false segs (buffer P)))))).
Proof.
  intros Hshape Huns Hp. unfold adaptive_staple_threshold.
  rewrite (thresholds_on_regions P segs Hshape Huns). simpl.
  rewrite (vessel_mask_is_or P segs Hshape Huns).
  rewrite lookup_zip_with, Hp. simpl.
  rewrite !list_lookup_fmap, lookup_seq_lt by (eapply lookup_lt_Some; eassumption).
  simpl. destruct (in_candidate segs v); reflexivity.
Qed.

(** C3: in adaptive mode, with the candidate region the logical OR of the
    rater masks and the background its complement, voxel [v] is foreground
    exactly when it lies in the candidate region and its probability exceeds
    mean - stddev of the probabilities there, or lies in the background and
    its probability exceeds mean + stddev of the probabilities there.  Mean
    and stddev are [np.mean] and [np.std], the difference and the sum are
    those of [float64]; on a non-empty region numpy returns numbers, which
    is what the four equations say. *)
Theorem adaptive_threshold_rule (P : Image Q) (segs : list (Image Z)) (v : nat) (p : Q)
    (mean_candidate stddev_candidate mean_background stddev_background : Q) :
  same_shape P segs -> unsigned segs ->
  F64.mean (region true segs (buffer P)) = Some mean_candidate ->
  F64.std (region true segs (buffer P)) = Some stddev_candidate ->
  F64.mean (region false segs (buffer P)) = Some mean_background ->
  F64.std (region false segs (buffer P)) = Some stddev_background ->
  buffer P !! v = Some p ->
  (buffer (adaptive_staple_threshold P segs) !! v = Some 1 <->
   (in_candidate segs v = true /\
    (F64.sub mean_candidate stddev_candidate < p)%Q) \/
   (in_candidate segs v = false /\
    (F64.add mean_background stddev_background < p)%Q)).
Proof.
  intros Hshape Huns Hmc Hsc Hmb Hsb Hp.
  rewrite (adaptive_lookup P segs v p Hshape Huns Hp), Hmc, Hsc, Hmb, Hsb.
  destruct (in_candidate segs v); cbn [Num.lift2 Num.gt_thr];
    rewrite some_of_bool_1, Qltb_lt; split.
  - intros Hv. left. auto.
  - intros [[_ Hlt] | [Hf _]]; [exact Hlt | discriminate].
  - intros Hv. right. auto.
  - intros [[Hf _] | [_ Hlt]]; [discriminate | exact Hlt].
Qed.

End AdaptiveThreshold.

Lemma adaptive_threshold_rule_witness :
  let P := Toy.row [3 # 4; 1 # 4; 1 # 8]%Q in
  let segs := [Toy.row [1; 1; 0]; Toy.row [0; 1; 0]] in
  (region true segs (buffer P) = [3 # 4; 1 # 4]%Q /\
   region false segs (buffer P) = [1 # 8]%Q /\
   buffer (adaptive_staple_threshold P segs) = [1; 0; 0]) /\
  (buffer (adaptive_staple_threshold P segs) !! 0%nat = Some 1 <->
   (in_candidate segs 0 = true /\
    (F64.sub (Num.mean [3 # 4; 1 # 4]) (Num.stddev [3 # 4; 1 # 4]) < 3 # 4)%Q) \/
   (in_candidate segs 0 = false /\
    (F64.add (Num.mean [1 # 8]) (Num.stddev [1 # 8]) < 3 # 4)%Q)).
Proof.
  split; [repeat split|].
  apply (adaptive_threshold_rule (f64 := F64.exact)
           (Toy.row [3 # 4; 1 # 4; 1 # 8]%Q)
           [Toy.row [1; 1; 0]; Toy.row [0; 1; 0]]
           0%nat (3 # 4)%Q).
  - repeat constructor.
  - repeat constructor; simpl; lia.
  - reflexivity.
  - reflexivity.
  - reflexivity.
  - reflexivity.
  - reflexivity.
Defined.

Section DegenerateRegions.
Context {f64 : F64.Float64}.

Lemma select_none (f : nat -> bool) (P : list Q) (k : nat) :
  select (map f (seq k (length P))) P = [] ->
  select (map (fun v => negb (f v)) (seq k (length P))) P = P /\
  forall i : nat, (i < length P)%nat -> f (k + i)%nat = false.
Proof.
  revert k. induction P as [|p P IH]; intros k Hnil.
  - split; [reflexivity | simpl; lia].
  - simpl in Hnil. destruct (f k) eqn:Hk; [discriminate|].
    destruct (IH (S k) Hnil) as [Hsel Hall]. split.
    + simpl. rewrite Hk. simpl. f_equal. exact Hsel.
    + intros [|i] Hi.
      * rewrite Nat.add_0_r. exact Hk.
      * replace (k + S i)%nat with (S k + i)%nat by lia. apply Hall. simpl in Hi. lia.
Qed.

(** When one side of the mask is empty, the other side is the whole volume
    and every voxel lies on it. *)
Lemma empty_region (inside : bool) (segs : list (Image Z)) (P : list Q) :
  region inside segs P = [] ->
  region (negb inside) segs P = P /\
  forall v : nat, (v < length P)%nat -> in_candidate segs v = negb inside.
Proof.
  intros Hnil. rewrite <- select_region in Hnil.
  destruct (select_none _ P 0 Hnil) as [Hsel Hall]. split.
  - rewrite <- select_region. rewrite <- Hsel at 3. f_equal.
    apply map_ext. intros v. destruct (in_candidate segs v), inside; reflexivity.
  - intros v Hv. specialize (Hall v Hv). simpl in Hall.
    destruct (in_candidate segs v), inside; simpl in *; congruence.
Qed.

(** C4, as amended: adaptive mode has no fallback.  When the candidate
    region is empty, every voxel is cut at mean + stddev of the whole
    probability map; when the background is empty, every voxel is cut at
    mean - stddev of the whole probability map ([np.mean], [np.std] and the
    [float64] sum and difference).  [confidence_threshold] is not
    consulted. *)
Theorem adaptive_threshold_degenerate (P : Image Q) (segs : list (Image Z)) (v : nat) (p : Q)
    (mean_all stddev_all : Q) :
  same_shape P segs -> unsigned segs ->
  F64.mean (buffer P) = Some mean_all ->
  F64.std (buffer P) = Some stddev_all ->
  buffer P !! v = Some p ->
  (region true segs (buffer P) = [] ->
   (buffer (adaptive_staple_threshold P segs) !! v = Some 1 <->
    (F64.add mean_all stddev_all < p)%Q)) /\
  (region false segs (buffer P) = [] ->
   (buffer (adaptive_staple_threshold P segs) !! v = Some 1 <->
    (F64.sub mean_all stddev_all < p)%Q)).
Proof.
  intros Hshape Huns Hm Hs Hp.
  pose proof (lookup_lt_Some _ _ _ Hp) as Hv.
  rewrite (adaptive_lookup P segs v p Hshape Huns Hp).
  split; intros Hnil.
  - destruct (empty_region true segs (buffer P) Hnil) as [Hother Hside].
    rewrite (Hside v Hv). simpl negb in *. cbv iota. rewrite Hother, Hm, Hs.
    cbn [Num.lift2 Num.gt_thr]. rewrite some_of_bool_1. apply Qltb_lt.
  - destruct (empty_region false segs (buffer P) Hnil) as [Hother Hside].
    rewrite (Hside v Hv). simpl negb in *. cbv iota. rewrite Hother, Hm, Hs.
    cbn [Num.lift2 Num.gt_thr]. rewrite some_of_bool_1. apply Qltb_lt.
Qed.

End DegenerateRegions.

Lemma adaptive_threshold_degenerate_witness :
  let P := Toy.volume Toy.unit_spacing [3 # 4; 1 # 4]%Q in
  let segs := [Toy.volume Toy.unit_spacing [0; 0]; Toy.volume Toy.unit_spacing [0; 0]] in
  (region true segs (buffer P) = [] /\
   buffer (adaptive_staple_threshold P segs) = [0; 0] /\
   buffer (Greater P (1 # 2)) = [1; 0]) /\
  ((region true segs (buffer P) = [] ->
    (buffer (adaptive_staple_threshold P segs) !! 0%nat = Some 1 <->
     (F64.add (Num.mean [3 # 4; 1 # 4]) (Num.stddev [3 # 4; 1 # 4]) < 3 # 4)%Q)) /\
   (region false segs (buffer P) = [] ->
    (buffer (adaptive_staple_threshold P segs) !! 0%nat = Some 1 <->
     (F64.sub (Num.mean [3 # 4; 1 # 4]) (Num.stddev [3 # 4; 1 # 4]) < 3 # 4)%Q))).
Proof.
  split; [repeat split|].
  apply (adaptive_threshold_degenerate (f64 := F64.exact)
           (Toy.volume Toy.unit_spacing [3 # 4; 1 # 4]%Q)
           [Toy.volume Toy.unit_spacing [0; 0]; Toy.volume Toy.unit_spacing [0; 0]]
           0%nat (3 # 4)%Q).
  - repeat constructor.
  - repeat constructor; simpl; lia.
  - reflexivity.
  - reflexivity.
  - reflexivity.
Defined.

(** C4, as stated, fails: with two all-background masks the candidate
    region is empty, and on a probability map that is 0.6 everywhere the
    adaptive output is all background, while the fixed threshold 0.5 marks
    every voxel. *)
Lemma adaptive_fallback_counterexample :
  ~ (forall (cfg : Config) (P : Image Q) (segs : list (Image Z)),
       do_adaptive_thresholding cfg = true ->
       same_shape P segs -> unsigned segs ->
       region true segs (buffer P) = [] \/ region false segs (buffer P) = [] ->
       buffer (threshold_stage cfg P segs) = buffer (Greater P (confidence_threshold cfg))).
Proof.
  intros Hclaim.
  specialize (Hclaim (mk_Config (1 # 2) true true true)
                (Toy.volume Toy.unit_spacing [3 # 5; 3 # 5]%Q)
                [Toy.volume Toy.unit_spacing [0; 0]; Toy.volume Toy.unit_spacing [0; 0]]
                eq_refl).
  assert (Hout : [0; 0] = [1; 1]).
  { apply Hclaim.
    - repeat constructor.
    - repeat constructor; simpl; lia.
    - left. reflexivity. }
  discriminate.
Qed.

(** ** Vessel-connectivity enhancement *)

#[export] Instance toy_size_preserving : SizePreserving Toy.toy_sitk.
Proof.
  split; intros; try reflexivity.
  simpl. unfold Toy.relabel. destruct (1 <? n); reflexivity.
Qed.

Section Enhancement.
Context {sitk : SimpleITK} {f64 : F64.Float64} {sizes : SizePreserving sitk}.

(** On a non-negative value [int] is the floor. *)
Lemma py_int_floor (x : Q) : (0 <= x)%Q -> Num.py_int x = Qfloor x.
Proof.
  destruct x as [n d]. unfold Qle, Num.py_int, Qfloor. simpl. intros Hn.
  apply Z.quot_div_nonneg; lia.
Qed.

(** C5, as amended: with [kernel_radius_voxels] the float quotient
    [radius_mm / min(spacing)] rounded to an integer, and [min_object_size]
    the float [pi * radius_mm^2 * min_length_mm / voxel_volume] truncated to
    an integer ([int] truncates, it does not round): when both are in the
    unsigned range of their parameter, the consensus mask is dilated and
    then eroded with that radius, its connected components are relabelled,
    every component with fewer voxels than [min_object_size] is dropped, and
    the result carries the header of the reference image; when one of them
    is negative (or too large), the call raises and returns no mask. *)
Theorem enhance_vessel_connectivity_spec (binary_mask : Image Z) (original_image : Image Q)
    (radius_mm min_length_mm : Q) :
  let spacing := GetSpacing original_image in
  let kernel_radius_voxels := Num.py_round (F64.div radius_mm (Num.Qmin_list spacing)) in
  let min_object_size :=
    Num.py_int (F64.div (F64.mul (F64.mul Num.np_pi (F64.pow radius_mm 2)) min_length_mm)
                        (F64.prod spacing)) in
  let closed :=
    BinaryErode kernel_radius_voxels (BinaryDilate kernel_radius_voxels binary_mask) in
  let kept := RelabelComponent min_object_size (ConnectedComponent closed) in
  (GetSize binary_mask = GetSize original_image ->
   0 <= kernel_radius_voxels < 2 ^ 32 ->
   0 <= min_object_size < 2 ^ 64 ->
   enhance_vessel_connectivity binary_mask original_image (Some radius_mm) (Some min_length_mm)
   = Ok (mk_Image (GetSize original_image) (GetSpacing original_image)
                  (GetOrigin original_image) (GetDirection original_image)
                  (map (fun label => of_bool (0 <? label)) (buffer kept)))) /\
  (kernel_radius_voxels < 0 \/ 2 ^ 32 <= kernel_radius_voxels \/
   min_object_size < 0 \/ 2 ^ 64 <= min_object_size ->
   enhance_vessel_connectivity binary_mask original_image (Some radius_mm) (Some min_length_mm)
   = raise NotUnsigned).
Proof.
  intros spacing k n closed kept.
  unfold enhance_vessel_connectivity.
  fold spacing. unfold kernel_radius_of, min_object_size_of.
  fold k. fold n. unfold as_unsigned. split.
  - intros Hsize [Hk0 Hk1] [Hn0 Hn1].
    apply Z.leb_le in Hk0, Hn0. apply Z.ltb_lt in Hk1, Hn1.
    rewrite Hk0, Hk1, Hn0, Hn1. cbn [andb rbind Ok].
    fold closed. fold kept.
    rewrite CopyInformation_same_size.
    + simpl. rewrite <- Hsize. f_equal. f_equal.
      unfold kept, closed.
      rewrite RelabelComponent_size, ConnectedComponent_size, BinaryErode_size,
        BinaryDilate_size.
      reflexivity.
    + simpl. unfold kept, closed.
      rewrite RelabelComponent_size, ConnectedComponent_size, BinaryErode_size,
        BinaryDilate_size.
      exact Hsize.
  - intros Hout.
    destruct ((0 <=? k) && (k <? 2 ^ 32)) eqn:Hk; cbn [rbind Ok raise]; [|reflexivity].
    destruct ((0 <=? n) && (n <? 2 ^ 64)) eqn:Hn; cbn [rbind Ok raise]; [|reflexivity].
    apply andb_true_iff in Hk, Hn. destruct Hk as [Hk0 Hk1], Hn as [Hn0 Hn1].
    apply Z.leb_le in Hk0, Hn0. apply Z.ltb_lt in Hk1, Hn1. lia.
Qed.

End Enhancement.

Lemma enhance_vessel_connectivity_spec_witness :
  enhance_vessel_connectivity (sitk := Toy.toy_sitk)
    (Toy.volume Toy.unit_spacing [0; 1]) demo_reference (Some 1%Q) (Some 5%Q)
  = Ok (Toy.volume Toy.unit_spacing [0; 0]) /\
  enhance_vessel_connectivity (sitk := Toy.toy_sitk)
    (Toy.volume Toy.unit_spacing [0; 1]) demo_reference (Some (-1)%Q) (Some 5%Q)
  = raise NotUnsigned.
Proof.
  split.
  - rewrite (proj1 (enhance_vessel_connectivity_spec (sitk := Toy.toy_sitk) (f64 := F64.exact)
                      (Toy.volume Toy.unit_spacing [0; 1]) demo_reference 1%Q 5%Q)).
    + reflexivity.
    + reflexivity.
    + vm_compute. split; [discriminate | reflexivity].
    + vm_compute. split; [discriminate | reflexivity].
  - apply (proj2 (enhance_vessel_connectivity_spec (sitk := Toy.toy_sitk) (f64 := F64.exact)
                    (Toy.volume Toy.unit_spacing [0; 1]) demo_reference (-1)%Q 5%Q)).
    left. vm_compute. reflexivity.
Defined.

(** C5, as stated, fails in its size bound: for a radius of 1 mm, a minimum
    length of 5 mm and unit spacing the cylinder volume is 15.7 voxels; the
    code passes 15 to the relabelling filter, rounding would give 16, so a
    component of 15 voxels is kept. *)
Lemma min_object_size_counterexample :
  ~ (forall (radius_mm min_length_mm : Q) (spacing : list Q),
       Forall (fun s => (0 < s)%Q) spacing ->
       min_object_size_of radius_mm min_length_mm spacing =
       Num.py_round (Num.np_pi * (radius_mm * radius_mm) * min_length_mm / Num.np_prod spacing)).
Proof.
  intros Hclaim.
  specialize (Hclaim 1%Q 5%Q Toy.unit_spacing).
  assert (Hpos : Forall (fun s => (0 < s)%Q) Toy.unit_spacing)
    by (repeat constructor).
  specialize (Hclaim Hpos). vm_compute in Hclaim. discriminate.
Qed.

(** ** Vessel statistics *)

Section VesselStatistics.

(** What the loop body computes for the volume of a component. *)
Lemma volume_mm3_of_value (spacing : list Q) (components : Image Z) (label : LabelObject) :
  (volume_mm3_of spacing components label ==
   inject_Z (GetNumberOfPixels label) * Num.np_prod (GetSpacing components)
     * Num.np_prod spacing)%Q.
Proof. unfold volume_mm3_of, GetPhysicalSize. reflexivity. Qed.

(** C6 at a failing input: a component of 8 voxels in a volume of spacing
    0.5 mm occupies 8 * 0.125 = 1 mm3; the code reports 0.125 mm3, because
    [GetPhysicalSize] is already a physical volume and the code multiplies
    it by the voxel volume once more. *)
Theorem volume_mm3_scaled_twice :
  let spacing := [1 # 2; 1 # 2; 1 # 2]%Q in
  let components := mk_Image [8; 1; 1] spacing [0; 0; 0]%Q (identity_direction 3) (repeat 1 8) in
  let label := mk_LabelObject 8 (identity_direction 3) in
  (inject_Z (GetNumberOfPixels label) * Num.np_prod spacing == 1)%Q /\
  (volume_mm3_of spacing components label == 1 # 8)%Q.
Proof. split; reflexivity. Qed.

End VesselStatistics.

(** ** Normalization of a label volume *)

Section Normalization.

Lemma convert_lookup (seg : Image Q) (v : nat) (x : Q) :
  buffer seg !! v = Some x ->
  buffer (convert_to_binary_mask seg) !! v =
    Some (if (2 <? Num.count_unique (buffer seg))%nat
          then of_bool (Qle_bool Num.double_1_1 x)
          else of_bool (Num.Qltb 0 x)).
Proof.
  intros Hx. unfold convert_to_binary_mask. simpl.
  destruct (2 <? Num.count_unique (buffer seg))%nat; simpl.
  - rewrite !list_lookup_fmap, Hx. simpl. rewrite andb_true_r.
    destruct (Qle_bool Num.double_1_1 x); reflexivity.
  - rewrite list_lookup_fmap, Hx. reflexivity.
Qed.

Lemma convert_binary (seg : Image Q) :
  Forall binary (buffer (convert_to_binary_mask seg)).
Proof.
  apply Forall_lookup_2. intros v y Hy.
  destruct (buffer seg !! v) as [x|] eqn:Hx.
  - rewrite (convert_lookup seg v x Hx) in Hy. injection Hy as <-.
    destruct (2 <? Num.count_unique (buffer seg))%nat; apply of_bool_binary.
  - exfalso. apply lookup_lt_Some in Hy. apply lookup_ge_None in Hx.
    unfold convert_to_binary_mask in Hy.
    destruct (2 <? Num.count_unique (data (GetArrayFromImage seg)))%nat;
      simpl in Hy; rewrite ?length_map in Hy; lia.
Qed.

Lemma convert_length (seg : Image Q) :
  length (buffer (convert_to_binary_mask seg)) = length (buffer seg).
Proof.
  unfold convert_to_binary_mask.
  destruct (2 <? Num.count_unique (data (GetArrayFromImage seg)))%nat;
    simpl; rewrite ?length_map; reflexivity.
Qed.

Lemma convert_size (seg : Image Q) :
  GetSize (convert_to_binary_mask seg) = GetSize seg.
Proof.
  unfold convert_to_binary_mask.
  destruct (2 <? Num.count_unique (data (GetArrayFromImage seg)))%nat; reflexivity.
Qed.

(** The distinct values of a non-empty binary array. *)
Lemma np_unique_binary (arr : list Z) :
  Forall binary arr -> arr <> [] ->
  Num.np_unique arr = [0] \/ Num.np_unique arr = [1] \/ Num.np_unique arr = [0; 1].
Proof.
  induction 1 as [|x arr Hx Harr IH]; intros Hne; [congruence|].
  unfold Num.np_unique in *. simpl.
  destruct arr as [|y arr'].
  - simpl. destruct Hx as [-> | ->]; auto.
  - destruct IH as [-> | [-> | ->]]; [discriminate|..];
      destruct Hx as [-> | ->]; simpl; auto.
Qed.

Lemma verify_binary (seg : Image Z) :
  Forall binary (buffer seg) -> buffer seg <> [] ->
  verify_segmentation_values seg = Ok tt.
Proof.
  intros Hbin Hne. unfold verify_segmentation_values. simpl.
  destruct (np_unique_binary (buffer seg) Hbin Hne) as [-> | [-> | ->]]; reflexivity.
Qed.

(** What normalization does to a volume of an integer pixel type. *)
Lemma convert_integer_outcome (seg : Image Z) :
  convert_to_binary_mask_integer seg =
    if (2 <? length (Num.np_unique (buffer seg)))%nat
    then raise (SitkError ThresholdOutOfRange)
    else Ok (GreaterZ seg 0).
Proof.
  unfold convert_to_binary_mask_integer. simpl.
  destruct (2 <? length (Num.np_unique (buffer seg)))%nat; reflexivity.
Qed.

Lemma GreaterZ_binary (seg : Image Z) (c : Z) : Forall binary (buffer (GreaterZ seg c)).
Proof. simpl. apply Forall_fmap, Forall_true. intros x. apply of_bool_binary. Qed.

(** C7, as amended.  For a volume of a float pixel type: when the volume
    has more than two distinct values, voxel [v] becomes foreground exactly
    when its value is at least 1.1 (the double; the lower bound of the
    threshold filter is inclusive), otherwise exactly when its value is
    positive; in both cases it is background when it is not foreground.  For
    a volume of an integer pixel type with at most two distinct values:
    voxel [v] becomes foreground exactly when its value is positive, and
    background otherwise.  In all these cases at most two distinct values
    remain, and the check that follows passes. *)
Theorem convert_to_binary_mask_spec (v : nat) :
  (forall (seg : Image Q) (x : Q),
     buffer seg !! v = Some x ->
     convert_to_binary_mask_typed (FloatImage seg) = Ok (convert_to_binary_mask seg) /\
     ((2 < Num.count_unique (buffer seg))%nat ->
      (buffer (convert_to_binary_mask seg) !! v = Some 1 <-> (Num.double_1_1 <= x)%Q) /\
      (buffer (convert_to_binary_mask seg) !! v = Some 0 <-> (x < Num.double_1_1)%Q)) /\
     ((Num.count_unique (buffer seg) <= 2)%nat ->
      (buffer (convert_to_binary_mask seg) !! v = Some 1 <-> (0 < x)%Q) /\
      (buffer (convert_to_binary_mask seg) !! v = Some 0 <-> (x <= 0)%Q)) /\
     (length (Num.np_unique (buffer (convert_to_binary_mask seg))) <= 2)%nat /\
     verify_segmentation_values (convert_to_binary_mask seg) = Ok tt) /\
  (forall (seg : Image Z) (x : Z),
     buffer seg !! v = Some x ->
     (length (Num.np_unique (buffer seg)) <= 2)%nat ->
     exists mask : Image Z,
       convert_to_binary_mask_typed (IntegerImage seg) = Ok mask /\
       (buffer mask !! v = Some 1 <-> 0 < x) /\
       (buffer mask !! v = Some 0 <-> x <= 0) /\
       (length (Num.np_unique (buffer mask)) <= 2)%nat /\
       verify_segmentation_values mask = Ok tt).
Proof.
  split.
  - intros seg x Hx. split; [reflexivity|]. rewrite (convert_lookup seg v x Hx).
    assert (Hne : buffer (convert_to_binary_mask seg) <> []).
    { intros H0. apply (f_equal length) in H0. rewrite convert_length in H0.
      apply lookup_lt_Some in Hx. simpl in H0. lia. }
    pose proof (verify_binary _ (convert_binary seg) Hne) as Hok.
    split; [|split; [|split; [|exact Hok]]].
    + intros Hmany. apply Nat.ltb_lt in Hmany. rewrite Hmany.
      rewrite some_of_bool_1, some_of_bool_0, Qle_bool_iff, Qle_bool_false. tauto.
    + intros Hfew. apply Nat.ltb_ge in Hfew. rewrite Hfew.
      rewrite some_of_bool_1, some_of_bool_0, Qltb_lt, Qltb_ge. tauto.
    + destruct (np_unique_binary _ (convert_binary seg) Hne) as [Hu | [Hu | Hu]];
        rewrite Hu; simpl; lia.
  - intros seg x Hx Hfew. cbn [convert_to_binary_mask_typed].
    rewrite convert_integer_outcome. apply Nat.ltb_ge in Hfew. rewrite Hfew.
    exists (GreaterZ seg 0). split; [reflexivity|].
    assert (Hne : buffer (GreaterZ seg 0) <> []).
    { simpl. destruct (buffer seg); [discriminate | discriminate]. }
    assert (Hv : buffer (GreaterZ seg 0) !! v = Some (of_bool (0 <? x))).
    { simpl. rewrite list_lookup_fmap, Hx. reflexivity. }
    rewrite Hv, some_of_bool_1, some_of_bool_0, Z.ltb_lt, Z.ltb_ge.
    split; [tauto|]. split; [tauto|]. split.
    + destruct (np_unique_binary _ (GreaterZ_binary seg 0) Hne) as [Hu | [Hu | Hu]];
        rewrite Hu; simpl; lia.
    + exact (verify_binary _ (GreaterZ_binary seg 0) Hne).
Qed.

End Normalization.

Lemma convert_to_binary_mask_spec_witness :
  let seg := Toy.row [0; Num.double_1_1; 2]%Q in
  let labels := Toy.row [0; 2; 2] in
  ((2 < Num.count_unique (buffer seg))%nat /\
   buffer (convert_to_binary_mask seg) = [0; 1; 1] /\
   (length (Num.np_unique (buffer labels)) <= 2)%nat /\
   convert_to_binary_mask_typed (IntegerImage labels) = Ok (Toy.row [0; 1; 1])) /\
  (buffer (convert_to_binary_mask seg) !! 1%nat = Some 1 <->
   (Num.double_1_1 <= Num.double_1_1)%Q) /\
  (exists mask : Image Z,
     convert_to_binary_mask_typed (IntegerImage labels) = Ok mask /\
     (buffer mask !! 1%nat = Some 1 <-> 0 < 2) /\
     (buffer mask !! 1%nat = Some 0 <-> 2 <= 0) /\
     (length (Num.np_unique (buffer mask)) <= 2)%nat /\
     verify_segmentation_values mask = Ok tt).
Proof.
  intros seg labels.
  assert (Hcount : (2 < Num.count_unique (buffer seg))%nat) by (vm_compute; lia).
  assert (Hfew : (length (Num.np_unique (buffer labels)) <= 2)%nat) by (vm_compute; lia).
  pose proof (convert_to_binary_mask_spec 1%nat) as [Hfloat Hinteger].
  split; [|split].
  - split; [exact Hcount|]. split; [reflexivity|]. split; [exact Hfew | reflexivity].
  - destruct (Hfloat seg Num.double_1_1 eq_refl) as (_ & Hmany & _).
    exact (proj1 (Hmany Hcount)).
  - exact (Hinteger labels 2 eq_refl Hfew).
Defined.

(** C7, as stated, fails at the cut itself: in a float volume with the three
    values 0, 1.1 and 2 the voxel of value 1.1 is not above 1.1, and it
    becomes foreground. *)
Lemma convert_cut_counterexample :
  ~ (forall (seg : Image Q) (v : nat) (x : Q),
       buffer seg !! v = Some x ->
       (2 < Num.count_unique (buffer seg))%nat ->
       (buffer (convert_to_binary_mask seg) !! v = Some 1 <-> (Num.double_1_1 < x)%Q)).
Proof.
  intros Hclaim.
  destruct (Hclaim (Toy.row [0; Num.double_1_1; 2]%Q) 1%nat Num.double_1_1 eq_refl)
    as [Hfore _].
  - vm_compute. lia.
  - specialize (Hfore eq_refl). vm_compute in Hfore. discriminate.
Qed.

(** ** The invalid-mask error in the pipeline *)

Section InvalidMask.
Context {sitk : SimpleITK} {f64 : F64.Float64}.

Lemma ReadImage_error (w : World) (path : string) (e : exn) :
  ReadImage w path = raise e -> e = SitkError CannotRead.
Proof.
  unfold ReadImage, ReadTypedImage. destruct (fs w !! path) as [[|img|img]|]; intros H;
    try discriminate; injection H as <-; reflexivity.
Qed.

Lemma CopyInformation_error {T U} (dst : Image T) (src : Image U) (e : exn) :
  CopyInformation dst src = raise e -> e = SitkError SizeMismatch.
Proof.
  unfold CopyInformation. case_decide; intros Hc; [discriminate|].
  injection Hc as <-. reflexivity.
Qed.

(** Reading a mask file that holds a float volume. *)
Lemma read_one_float (w : World) (original_image : Image Q) (seg_path : string)
    (raw : Image Q) :
  fs w !! seg_path = Some (Volume raw) ->
  buffer raw <> [] ->
  read_one w original_image seg_path =
    if decide (GetSize raw = GetSize original_image)
    then Ok (mk_Image (GetSize raw) (GetSpacing original_image) (GetOrigin original_image)
                      (GetDirection original_image) (buffer (convert_to_binary_mask raw)))
    else raise (SitkError SizeMismatch).
Proof.
  intros Hfile Hne. unfold read_one, ReadTypedImage. rewrite Hfile. simpl.
  rewrite verify_binary.
  - simpl. unfold CopyInformation. rewrite convert_size. reflexivity.
  - apply convert_binary.
  - intros H0. apply (f_equal length) in H0. rewrite convert_length in H0.
    destruct (buffer raw); [congruence | discriminate].
Qed.

(** Reading a mask file that holds an integer volume. *)
Lemma read_one_integer (w : World) (original_image : Image Q) (seg_path : string)
    (raw : Image Z) :
  fs w !! seg_path = Some (IntegerVolume raw) ->
  buffer raw <> [] ->
  read_one w original_image seg_path =
    if (2 <? length (Num.np_unique (buffer raw)))%nat
    then raise (SitkError ThresholdOutOfRange)
    else if decide (GetSize raw = GetSize original_image)
         then Ok (mk_Image (GetSize raw) (GetSpacing original_image)
                           (GetOrigin original_image) (GetDirection original_image)
                           (map (fun x => of_bool (0 <? x)) (buffer raw)))
         else raise (SitkError SizeMismatch).
Proof.
  intros Hfile Hne. unfold read_one, ReadTypedImage. rewrite Hfile.
  cbn [rbind Ok convert_to_binary_mask_typed]. rewrite convert_integer_outcome.
  destruct (2 <? length (Num.np_unique (buffer raw)))%nat; [reflexivity|].
  cbn [rbind Ok]. rewrite verify_binary.
  - reflexivity.
  - apply GreaterZ_binary.
  - simpl. destruct (buffer raw); [congruence | discriminate].
Qed.

Lemma read_one_fails (w : World) (original_image : Image Q) (seg_path : string) (e : exn) :
  nonempty_volumes w ->
  read_one w original_image seg_path = raise e ->
  e = SitkError CannotRead \/ e = SitkError SizeMismatch \/
  e = SitkError ThresholdOutOfRange.
Proof.
  intros [Hfloat Hint].
  destruct (fs w !! seg_path) as [[|raw|raw]|] eqn:Hfile.
  - unfold read_one, ReadTypedImage. rewrite Hfile. intros He. injection He as <-. auto.
  - rewrite (read_one_float _ _ _ _ Hfile (Hfloat _ _ Hfile)).
    case_decide; intros He; [discriminate|]. injection He as <-. auto.
  - rewrite (read_one_integer _ _ _ _ Hfile (Hint _ _ Hfile)).
    destruct (2 <? length (Num.np_unique (buffer raw)))%nat.
    + intros He. injection He as <-. auto.
    + case_decide; intros He; [discriminate|]. injection He as <-. auto.
  - unfold read_one, ReadTypedImage. rewrite Hfile. intros He. injection He as <-. auto.
Qed.

Lemma read_one_error (w : World) (original_image : Image Q) (seg_path : string) (e : exn) :
  nonempty_volumes w ->
  read_one w original_image seg_path = raise e -> invalid_mask e = false.
Proof.
  intros Hw He.
  destruct (read_one_fails _ _ _ _ Hw He) as [-> | [-> | ->]]; reflexivity.
Qed.

Lemma read_segmentations_error (original_image : Image Q) (paths : list string) :
  forall (w w' : World) (e : exn),
    nonempty_volumes w ->
    read_segmentations original_image paths w = (raise e, w') ->
    invalid_mask e = false.
Proof.
  induction paths as [|seg_path rest IH]; intros w w' e Hw; simpl.
  - discriminate.
  - destruct (path_exists w seg_path); simpl.
    + destruct (read_one w original_image seg_path) as [e0|seg] eqn:Hone.
      * intros He. injection He as <- _. simpl.
        exact (read_one_error _ _ _ _ Hw Hone).
      * destruct (read_segmentations original_image rest w) as [[e1|segs] w1] eqn:Hrest.
        -- intros He. injection He as <- _. exact (IH _ _ _ Hw Hrest).
        -- discriminate.
    + apply IH. exact Hw.
Qed.

Lemma verify_from_error (ref_size : list Z) (ref_spacing : list Q) (segs : list (Image Z)) :
  forall (i : nat) (e : exn),
    verify_from ref_size ref_spacing i segs = raise e -> invalid_mask e = false.
Proof.
  induction segs as [|seg segs IH]; intros i e; simpl.
  - discriminate.
  - destruct (bool_decide (GetSize seg = ref_size)); simpl.
    + destruct (Num.np_allclose (GetSpacing seg) ref_spacing (1 # 1000)); simpl.
      * apply IH.
      * intros H. injection H as <-. reflexivity.
    + intros H. injection H as <-. reflexivity.
Qed.

Lemma verify_spatial_consistency_error (reference_image : Image Q)
    (segs : list (Image Z)) (e : exn) :
  verify_spatial_consistency reference_image segs = raise e -> invalid_mask e = false.
Proof.
  unfold verify_spatial_consistency. destruct segs as [|seg segs].
  - intros H. injection H as <-. reflexivity.
  - destruct (negb (length (GetSize reference_image) =? 3)%nat).
    + intros H. injection H as <-. reflexivity.
    + apply verify_from_error.
Qed.

Lemma fuse_and_save_error (cfg : Config) (out : string) (original_image : Image Q)
    (segs : list (Image Z)) (w w' : World) (e : exn) :
  fuse_and_save cfg out original_image segs w = (raise e, w') -> invalid_mask e = false.
Proof.
  unfold fuse_and_save.
  destruct (verify_spatial_consistency original_image segs) as [e0|?] eqn:Hv.
  - intros H. injection H as <- _. exact (verify_spatial_consistency_error _ _ _ Hv).
  - destruct (enhancement_stage _ _ _ _ _ _) as [consensus w1].
    destruct (CopyInformation consensus original_image) as [e1|copied] eqn:Hc.
    + intros H. injection H as <- _. rewrite (CopyInformation_error _ _ _ Hc). reflexivity.
    + unfold WriteImage. destruct (writable w1 out).
      * discriminate.
      * intros H. injection H as <- _. reflexivity.
Qed.

(** C10: a normalized mask holds only the values 0 and 1, so the check of
    its values passes, and no run of the pipeline ends in the invalid-mask
    error (on disks whose volumes have at least one voxel). *)
Theorem normalized_mask_never_invalid (src : string) (paths : list string) (out : string)
    (cfg : Config) (w : World) :
  nonempty_volumes w ->
  (forall seg : Image Q,
     Forall (fun x => x = 0 \/ x = 1) (buffer (convert_to_binary_mask seg))) /\
  (forall seg : Image Q,
     buffer seg <> [] ->
     verify_segmentation_values (convert_to_binary_mask seg) = Ok tt) /\
  (forall e : exn,
     fst (create_staple_consensus src paths out cfg w) = raise e ->
     invalid_mask e = false).
Proof.
  intros Hw. split; [exact convert_binary|]. split.
  - intros seg Hne. apply verify_binary; [apply convert_binary|].
    intros H0. apply (f_equal length) in H0. rewrite convert_length in H0.
    destruct (buffer seg); [congruence | discriminate].
  - intros e. unfold create_staple_consensus.
    destruct (length paths <? 2)%nat; simpl.
    { intros H. injection H as <-. reflexivity. }
    destruct (ReadImage w src) as [e0|original] eqn:Ho; simpl.
    { intros H. injection H as <-. simpl. rewrite (ReadImage_error _ _ _ Ho). reflexivity. }
    destruct (read_segmentations original paths w) as [[e1|segs] w1] eqn:Hr; simpl.
    { intros H. injection H as <-. exact (read_segmentations_error _ _ _ _ _ Hw Hr). }
    destruct segs as [|seg segs]; simpl; [discriminate|].
    destruct (fuse_and_save cfg out original (seg :: segs) w1) as [[e2|?] w2] eqn:Hf; simpl.
    + intros H. injection H as <-. exact (fuse_and_save_error _ _ _ _ _ _ _ Hf).
    + discriminate.
Qed.

End InvalidMask.

Lemma demo_world_nonempty : nonempty_volumes demo_world.
Proof.
  split; intros path img; unfold demo_world; simpl;
    rewrite !lookup_insert; repeat case_decide; try discriminate;
    intros Hfile; injection Hfile as <-; discriminate.
Qed.

Lemma normalized_mask_never_invalid_witness :
  (forall seg : Image Q,
     Forall (fun x => x = 0 \/ x = 1) (buffer (convert_to_binary_mask seg))) /\
  (forall seg : Image Q,
     buffer seg <> [] ->
     verify_segmentation_values (convert_to_binary_mask seg) = Ok tt) /\
  (forall e : exn,
     fst (create_staple_consensus (sitk := Toy.toy_sitk) "img" ["a"; "b"] "out"
            (mk_Config (1 # 2) true true true) demo_world) = raise e ->
     invalid_mask e = false).
Proof.
  apply (normalized_mask_never_invalid (sitk := Toy.toy_sitk) "img" ["a"; "b"] "out"
           (mk_Config (1 # 2) true true true) demo_world).
  exact demo_world_nonempty.
Defined.

(** ** The number of raters *)

Section Raters.
Context {sitk : SimpleITK} {f64 : F64.Float64}.

Lemma read_all_missing (original_image : Image Q) (paths : list string) :
  forall w : World,
    Forall (fun path => fs w !! path = None) paths ->
    read_segmentations original_image paths w =
      (Ok [], mk_World (fs w) (writable w)
                (stdout w ++ map SegmentationFileNotFound paths)).
Proof.
  induction paths as [|seg_path rest IH]; intros w Hmiss; simpl.
  - rewrite app_nil_r. destruct w; reflexivity.
  - inversion Hmiss as [|? ? Hp Hrest]; subst.
    unfold path_exists. rewrite Hp.
    rewrite bool_decide_eq_false_2 by (intros [? ?]; discriminate). simpl.
    rewrite (IH (print (SegmentationFileNotFound seg_path) w)) by exact Hrest.
    simpl. rewrite <- app_assoc. reflexivity.
Qed.

(** C8, as amended: the pipeline fails for want of raters when fewer than
    two mask paths are supplied.  When two or more paths are supplied and
    none of them exists, it does not fail: it reports every missing file,
    prints that no valid segmentation was found and returns without a
    result, leaving the disk as it was. *)
Theorem create_staple_consensus_rater_count (src : string) (paths : list string)
    (out : string) (cfg : Config) (w : World) :
  ((length paths < 2)%nat ->
   create_staple_consensus src paths out cfg w = (raise AtLeastTwoSegmentations, w)) /\
  ((2 <= length paths)%nat ->
   (exists original, ReadImage w src = Ok original) ->
   Forall (fun path => fs w !! path = None) paths ->
   create_staple_consensus src paths out cfg w =
     (Ok None,
      mk_World (fs w) (writable w)
        (stdout w ++ map SegmentationFileNotFound paths ++ [NoValidSegmentationsFound]))).
Proof.
  unfold create_staple_consensus. split.
  - intros Hlen. apply Nat.ltb_lt in Hlen. rewrite Hlen. reflexivity.
  - intros Hlen [original Ho] Hmiss. apply Nat.ltb_ge in Hlen. rewrite Hlen, Ho.
    cbv beta iota delta [Ok].
    rewrite (read_all_missing original paths w Hmiss).
    unfold print. simpl. rewrite <- app_assoc. reflexivity.
Qed.

End Raters.

(** C8, as stated, fails: two mask paths are supplied, neither exists, the
    rater set that is processed is empty, and the call returns normally. *)
Lemma insufficient_raters_counterexample :
  ~ (forall (sitk : SimpleITK) (src : string) (paths : list string) (out : string)
       (cfg : Config) (w w1 : World) (original : Image Q) (segs : list (Image Z)),
       ReadImage w src = Ok original ->
       read_segmentations original paths w = (Ok segs, w1) ->
       (length segs < 2)%nat ->
       exists e, fst (create_staple_consensus src paths out cfg w) = raise e).
Proof.
  intros Hclaim.
  destruct (Hclaim Toy.toy_sitk "img" ["x"; "y"] "out" (mk_Config (1 # 2) true true true)
              demo_world
              (mk_World (fs demo_world) (writable demo_world)
                        [SegmentationFileNotFound "x"; SegmentationFileNotFound "y"])
              demo_reference [])
    as [e He].
  - reflexivity.
  - vm_compute. reflexivity.
  - simpl. lia.
  - vm_compute in He. discriminate.
Qed.

Lemma create_staple_consensus_rater_count_witness :
  create_staple_consensus (sitk := Toy.toy_sitk) "img" ["a"] "out"
    (mk_Config (1 # 2) true true true) demo_world
    = (raise AtLeastTwoSegmentations, demo_world) /\
  create_staple_consensus (sitk := Toy.toy_sitk) "img" ["x"; "y"] "out"
    (mk_Config (1 # 2) true true true) demo_world
    = (Ok None,
       mk_World (fs demo_world) (writable demo_world)
         (stdout demo_world ++ map SegmentationFileNotFound ["x"; "y"]
            ++ [NoValidSegmentationsFound])).
Proof.
  split.
  - apply (create_staple_consensus_rater_count (sitk := Toy.toy_sitk) "img" ["a"] "out"
             (mk_Config (1 # 2) true true true) demo_world).
    simpl. lia.
  - apply (create_staple_consensus_rater_count (sitk := Toy.toy_sitk) "img" ["x"; "y"] "out"
             (mk_Config (1 # 2) true true true) demo_world).
    + simpl. lia.
    + exists demo_reference. reflexivity.
    + repeat constructor.
Defined.

(** ** Failure of the enhancement *)

Section EnhancementFailure.
Context {sitk : SimpleITK} {f64 : F64.Float64}.

(** A rater mask without any connected component makes the statistics
    fail. *)
Lemma analyze_each_no_component (spacing : list Q) (segs : list (Image Z)) :
  Exists (fun seg => LabelShapeStatistics (ConnectedComponent seg) = []) segs ->
  analyze_each spacing segs = raise ZeroSizeReduction.
Proof.
  induction segs as [|seg segs IH]; intros Hex.
  - inversion Hex.
  - simpl. unfold analyze_one.
    destruct (LabelShapeStatistics (ConnectedComponent seg)) as [|label labels] eqn:Hl.
    + reflexivity.
    + simpl. inversion Hex as [? ? Hhere | ? ? Hthere]; subst; [congruence|].
      rewrite (IH Hthere). reflexivity.
Qed.

Lemma try_enhance_no_component (consensus : Image Z) (segs : list (Image Z))
    (original_image : Image Q) :
  Exists (fun seg => LabelShapeStatistics (ConnectedComponent seg) = []) segs ->
  try_enhance consensus segs original_image = raise ZeroSizeReduction.
Proof.
  intros Hex. unfold try_enhance, analyze_vessel_characteristics.
  rewrite (analyze_each_no_component _ _ Hex). reflexivity.
Qed.

End EnhancementFailure.

(** ** Validation inside the pipeline *)

Section ValidationInPipeline.
Context {sitk : SimpleITK} {f64 : F64.Float64}.

(** A mask that has been read carries the header of the reference image:
    [CopyInformation] has replaced its spacing, and has raised if its size
    differed. *)
Lemma read_one_header (w : World) (original_image : Image Q) (seg_path : string)
    (seg : Image Z) :
  read_one w original_image seg_path = Ok seg ->
  GetSize seg = GetSize original_image /\ GetSpacing seg = GetSpacing original_image.
Proof.
  unfold read_one.
  destruct (ReadTypedImage w seg_path) as [e|raw]; simpl; [discriminate|].
  destruct (convert_to_binary_mask_typed raw) as [e|mask]; simpl; [discriminate|].
  destruct (verify_segmentation_values mask); simpl; [discriminate|].
  unfold CopyInformation. case_decide as Hs; intros Hc; [|discriminate].
  injection Hc as <-. simpl. split; [exact Hs | reflexivity].
Qed.

Lemma read_segmentations_header (original_image : Image Q) (paths : list string) :
  forall (w w' : World) (segs : list (Image Z)),
    read_segmentations original_image paths w = (Ok segs, w') ->
    Forall (fun seg => GetSize seg = GetSize original_image /\
                       GetSpacing seg = GetSpacing original_image) segs.
Proof.
  induction paths as [|seg_path rest IH]; intros w w' segs; simpl.
  - intros Hr. injection Hr as <- _. constructor.
  - destruct (path_exists w seg_path); simpl.
    + destruct (read_one w original_image seg_path) as [e|seg] eqn:Hone; [discriminate|].
      destruct (read_segmentations original_image rest w) as [[e|segs'] w1] eqn:Hrest;
        [discriminate|].
      intros Hr. injection Hr as <- _. constructor.
      * exact (read_one_header _ _ _ _ Hone).
      * exact (IH _ _ _ Hrest).
    + apply IH.
Qed.

Lemma np_allclose_refl (a : list Q) : Num.np_allclose a a (1 # 1000) = true.
Proof.
  induction a as [|x a IH]; [reflexivity|]. simpl. rewrite IH, andb_true_r.
  apply Qle_bool_iff.
  assert (Hz : (Qabs (x - x) == 0)%Q).
  { assert (Hxx : (x - x == 0)%Q) by ring. rewrite Hxx. reflexivity. }
  rewrite Hz. pose proof (Qabs_nonneg x) as Hx. unfold Num.atol.
  assert (Ha : (0 <= 1 # 100000000)%Q) by (unfold Qle; simpl; lia).
  nra.
Qed.

Lemma verify_from_same_header (ref_size : list Z) (ref_spacing : list Q)
    (segs : list (Image Z)) :
  Forall (fun seg => GetSize seg = ref_size /\ GetSpacing seg = ref_spacing) segs ->
  forall i : nat, verify_from ref_size ref_spacing i segs = Ok tt.
Proof.
  induction 1 as [|seg segs [Hsize Hsp] _ IH]; intros i; [reflexivity|].
  simpl. rewrite bool_decide_eq_true_2 by exact Hsize. simpl.
  rewrite Hsp, np_allclose_refl. simpl. apply IH.
Qed.

(** Hence, on the masks the pipeline has read, the validator can only
    object to a reference image that is not 3-D: its tests of dimensions and
    spacing always pass there. *)
Lemma validation_of_read_masks (original_image : Image Q) (paths : list string)
    (w w' : World) (segs : list (Image Z)) :
  read_segmentations original_image paths w = (Ok segs, w') ->
  segs <> [] ->
  verify_spatial_consistency original_image segs =
    if (length (GetSize original_image) =? 3)%nat
    then Ok tt
    else raise (Expected3D (length (GetSize original_image))).
Proof.
  intros Hread Hne. unfold verify_spatial_consistency.
  destruct segs as [|seg segs]; [congruence|].
  destruct (length (GetSize original_image) =? 3)%nat; simpl negb; cbv iota; [|reflexivity].
  apply verify_from_same_header. exact (read_segmentations_header _ _ _ _ _ Hread).
Qed.

End ValidationInPipeline.

(** ** What a run leaves on disk *)

Section Persistence.
Context {sitk : SimpleITK} {f64 : F64.Float64}.

Lemma read_segmentations_disk (original_image : Image Q) (paths : list string) :
  forall (w w' : World) (r : result (list (Image Z))),
    read_segmentations original_image paths w = (r, w') ->
    fs w' = fs w /\ writable w' = writable w.
Proof.
  induction paths as [|seg_path rest IH]; intros w w' r; simpl.
  - intros Hr. injection Hr as _ <-. auto.
  - destruct (path_exists w seg_path); simpl.
    + destruct (read_one w original_image seg_path) as [e0|seg].
      * intros Hr. injection Hr as _ <-. auto.
      * destruct (read_segmentations original_image rest w) as [[e1|segs] w1] eqn:Hrest;
          intros Hr; injection Hr as _ <-; exact (IH _ _ _ Hrest).
    + intros Hr. exact (IH _ _ _ Hr).
Qed.

Lemma enhancement_stage_disk (cfg : Config) (out : string) (consensus : Image Z)
    (segs : list (Image Z)) (original_image : Image Q) (w w' : World) (img : Image Z) :
  enhancement_stage cfg out consensus segs original_image w = (img, w') ->
  fs w' = fs w /\ writable w' = writable w.
Proof.
  unfold enhancement_stage. destruct (do_vessel_enhancement cfg).
  - destruct (try_enhance consensus segs original_image);
      intros Hs; injection Hs as _ <-; auto.
  - intros Hs. injection Hs as _ <-. auto.
Qed.

Lemma CopyInformation_header {T U} (dst : Image T) (src : Image U) (img : Image T) :
  CopyInformation dst src = Ok img ->
  GetSize img = GetSize src /\ GetSpacing img = GetSpacing src /\
  GetOrigin img = GetOrigin src /\ GetDirection img = GetDirection src.
Proof.
  unfold CopyInformation. case_decide as Hs; intros Hc; [|discriminate].
  injection Hc as <-. simpl. auto.
Qed.

(** The two ways [fuse_and_save] can end. *)
Lemma fuse_and_save_disk (cfg : Config) (out : string) (original_image : Image Q)
    (segs : list (Image Z)) (w w' : World) (r : result (option (Image Z))) :
  fuse_and_save cfg out original_image segs w = (r, w') ->
  writable w' = writable w /\
  ((exists img,
      r = Ok (Some img) /\
      (GetSize img = GetSize original_image /\ GetSpacing img = GetSpacing original_image /\
       GetOrigin img = GetOrigin original_image /\
       GetDirection img = GetDirection original_image) /\
      writable w out = true /\
      fs w' = <[out := IntegerVolume img]> (fs w)) \/
   ((exists e, r = raise e) /\ fs w' = fs w)).
Proof.
  unfold fuse_and_save.
  destruct (verify_spatial_consistency original_image segs) as [e0|?].
  { intros Hr. injection Hr as <- <-. split; [reflexivity|]. right. eauto. }
  destruct (enhancement_stage _ _ _ _ _ _) as [consensus w1] eqn:Hstage.
  destruct (enhancement_stage_disk _ _ _ _ _ _ _ _ Hstage) as [Hfs Hwr].
  destruct (CopyInformation consensus original_image) as [e1|copied] eqn:Hcopy.
  { intros Hr. injection Hr as <- <-. split; [exact Hwr|]. right. eauto. }
  unfold WriteImage. destruct (writable w1 out) eqn:Hw.
  - intros Hr. injection Hr as <- <-. simpl. split; [exact Hwr|]. left.
    exists copied. split; [reflexivity|]. split; [exact (CopyInformation_header _ _ _ Hcopy)|].
    rewrite <- Hwr, Hfs. auto.
  - intros Hr. injection Hr as <- <-. split; [exact Hwr|]. right. eauto.
Qed.

(** X1: a run that returns an image has written exactly that image to the
    output path, and nothing else: the image carries the size, spacing,
    origin and direction of the reference image, reading the output path
    back gives the image, and every other path holds what it held. *)
Theorem returned_consensus_is_persisted (src : string) (paths : list string) (out : string)
    (cfg : Config) (w w' : World) (img : Image Z) :
  create_staple_consensus src paths out cfg w = (Ok (Some img), w') ->
  exists original,
    ReadImage w src = Ok original /\
    GetSize img = GetSize original /\ GetSpacing img = GetSpacing original /\
    GetOrigin img = GetOrigin original /\ GetDirection img = GetDirection original /\
    ReadImage w' out = Ok (pixelwise inject_Z img) /\
    forall path, path <> out -> fs w' !! path = fs w !! path.
Proof.
  unfold create_staple_consensus.
  destruct (length paths <? 2)%nat; [discriminate|].
  destruct (ReadImage w src) as [e|original]; [discriminate|].
  destruct (read_segmentations original paths w) as [[e|segs] w1] eqn:Hread; [discriminate|].
  destruct (read_segmentations_disk _ _ _ _ _ Hread) as [Hfs Hwr].
  destruct segs as [|seg segs]; [discriminate|].
  intros Hrun.
  destruct (fuse_and_save_disk _ _ _ _ _ _ _ Hrun)
    as [_ [(img' & Himg & (Hsz & Hsp & Hor & Hdir) & _ & Hdisk) | [[e He] _]]];
    [|discriminate].
  injection Himg as <-.
  exists original. split; [reflexivity|].
  repeat (split; [assumption|]).
  split.
  - unfold ReadImage, ReadTypedImage. rewrite Hdisk, lookup_insert_eq. reflexivity.
  - intros path Hne. rewrite Hdisk, Hfs. apply lookup_insert_ne. congruence.
Qed.

(** X2: a run that does not return an image, because it raised or because
    no mask file was found, leaves every file as it was. *)
Theorem no_image_no_write (src : string) (paths : list string) (out : string)
    (cfg : Config) (w w' : World) (r : result (option (Image Z))) :
  create_staple_consensus src paths out cfg w = (r, w') ->
  (forall img, r <> Ok (Some img)) ->
  fs w' = fs w /\ writable w' = writable w.
Proof.
  unfold create_staple_consensus.
  destruct (length paths <? 2)%nat.
  { intros Hr _. injection Hr as _ <-. auto. }
  destruct (ReadImage w src) as [e|original].
  { intros Hr _. injection Hr as _ <-. auto. }
  destruct (read_segmentations original paths w) as [[e|segs] w1] eqn:Hread.
  { intros Hr _. injection Hr as _ <-. exact (read_segmentations_disk _ _ _ _ _ Hread). }
  destruct (read_segmentations_disk _ _ _ _ _ Hread) as [Hfs Hwr].
  destruct segs as [|seg segs].
  { intros Hr _. injection Hr as _ <-. simpl. auto. }
  intros Hrun Hnone.
  destruct (fuse_and_save_disk _ _ _ _ _ _ _ Hrun)
    as [Hwr' [(img & Himg & _) | [_ Hdisk]]].
  - exfalso. exact (Hnone img Himg).
  - split; congruence.
Qed.

End Persistence.

Lemma returned_consensus_is_persisted_witness :
  exists img w',
    create_staple_consensus (sitk := Toy.toy_sitk) "img" ["a"; "b"] "out"
      (mk_Config (1 # 2) true true true) demo_world = (Ok (Some img), w') /\
    exists original,
      ReadImage demo_world "img" = Ok original /\
      GetSize img = GetSize original /\ GetSpacing img = GetSpacing original /\
      GetOrigin img = GetOrigin original /\ GetDirection img = GetDirection original /\
      ReadImage w' "out" = Ok (pixelwise inject_Z img) /\
      forall path, path <> "out" -> fs w' !! path = fs demo_world !! path.
Proof.
  eexists _, _. split.
  - vm_compute. reflexivity.
  - eapply (returned_consensus_is_persisted (sitk := Toy.toy_sitk) "img" ["a"; "b"] "out"
              (mk_Config (1 # 2) true true true) demo_world).
    vm_compute. reflexivity.
Defined.

Lemma no_image_no_write_witness :
  let w := mk_World (<["nothing" := NotAnImage]> (fs demo_world)) (fun _ => true) [] in
  let run := create_staple_consensus (sitk := Toy.toy_sitk) "img" ["a"; "nothing"] "out"
               (mk_Config (1 # 2) true true true) w in
  fst run = raise (ErrorReading "nothing" (SitkError CannotRead)) /\
  fs (snd run) = fs w /\ writable (snd run) = writable w.
Proof.
  intros w run. split; [reflexivity|].
  apply (no_image_no_write (sitk := Toy.toy_sitk) "img" ["a"; "nothing"] "out"
           (mk_Config (1 # 2) true true true) w (snd run) (fst run)).
  - apply surjective_pairing.
  - intros img Himg. vm_compute in Himg. discriminate.
Defined.

(** ** A run whose enhancement fails *)

Section EnhancementFailureRun.
Context {sitk : SimpleITK} {f64 : F64.Float64}.

(** C9: a rater mask without any connected component makes the enhancement
    fail (a vessel statistic is undefined); and whenever the enhancement
    fails, on a run with a 3-D reference image that has read its masks and
    may write its output, the run does not abort: it returns the consensus
    mask of the thresholding stage under the header of the reference image,
    the output path holds exactly that mask, every other file is as it was,
    and the three lines of the warning are what the run has printed since it
    read the masks. *)
Theorem enhancement_failure_keeps_consensus (src : string) (paths : list string)
    (out : string) (cfg : Config) (w w1 : World) (original_image : Image Q)
    (segs : list (Image Z)) :
  (2 <= length paths)%nat ->
  ReadImage w src = Ok original_image ->
  length (GetSize original_image) = 3%nat ->
  read_segmentations original_image paths w = (Ok segs, w1) ->
  segs <> [] ->
  do_vessel_enhancement cfg = true ->
  writable w out = true ->
  let preprocessed_segs :=
    if do_preprocessing cfg then map preprocess_segmentation segs else segs in
  let consensus := threshold_stage cfg (STAPLE 1 preprocessed_segs) preprocessed_segs in
  let saved :=
    mk_Image (GetSize original_image) (GetSpacing original_image)
             (GetOrigin original_image) (GetDirection original_image) (buffer consensus) in
  GetSize consensus = GetSize original_image ->
  (Exists no_component preprocessed_segs ->
   try_enhance consensus preprocessed_segs original_image = raise ZeroSizeReduction) /\
  (forall e : exn,
     try_enhance consensus preprocessed_segs original_image = raise e ->
     create_staple_consensus src paths out cfg w =
       (Ok (Some saved),
        mk_World (<[out := IntegerVolume saved]> (fs w)) (writable w)
                 (stdout w1 ++ warning e out))).
Proof.
  intros Hlen Ho Hdim Hread Hne Hon Hwr.
  destruct (read_segmentations_disk _ _ _ _ _ Hread) as [Hfs Hwr1].
  pose proof (validation_of_read_masks _ _ _ _ _ Hread Hne) as Hvalid.
  rewrite Hdim in Hvalid. cbn [Nat.eqb] in Hvalid.
  intros pre consensus saved Hsize. split.
  - apply try_enhance_no_component.
  - intros e Hfail. unfold create_staple_consensus.
    apply Nat.ltb_ge in Hlen. rewrite Hlen, Ho. cbv beta iota delta [Ok]. rewrite Hread.
    destruct segs as [|seg segs']; [congruence|].
    unfold fuse_and_save. cbv beta iota delta [Ok]. rewrite Hvalid.
    fold pre. fold consensus.
    unfold enhancement_stage. rewrite Hon, Hfail. cbv beta iota delta [raise].
    rewrite (CopyInformation_same_size consensus original_image Hsize).
    cbv beta iota delta [Ok].
    unfold WriteImage, print. cbn [writable fs stdout]. rewrite Hwr1, Hwr, Hfs.
    unfold warning, saved. rewrite Hsize. rewrite <- !app_assoc. reflexivity.
Qed.

End EnhancementFailureRun.

Lemma enhancement_failure_keeps_consensus_witness :
  let cfg := mk_Config (1 # 4) true false true in
  let saved := Toy.volume Toy.unit_spacing [0; 1] in
  create_staple_consensus (sitk := Toy.toy_sitk) "img" ["a"; "z"] "out" cfg empty_mask_world =
    (Ok (Some saved),
     mk_World (<["out" := IntegerVolume saved]> (fs empty_mask_world))
              (writable empty_mask_world)
              [ErrorAnalyzingVesselCharacteristics ZeroSizeReduction;
               NotPossibleToEnhance "out"; SavingWithoutEnhancement]).
Proof.
  intros cfg saved.
  pose proof (enhancement_failure_keeps_consensus (sitk := Toy.toy_sitk) (f64 := F64.exact)
                "img" ["a"; "z"] "out" cfg empty_mask_world empty_mask_world
                (Toy.volume Toy.unit_spacing [10; 20]%Q)
                [Toy.volume Toy.unit_spacing [0; 1]; Toy.volume Toy.unit_spacing [0; 0]])
    as Hrun.
  destruct Hrun as [Hfails Hkeeps].
  - simpl. lia.
  - reflexivity.
  - reflexivity.
  - reflexivity.
  - discriminate.
  - reflexivity.
  - reflexivity.
  - reflexivity.
  - apply (Hkeeps ZeroSizeReduction). apply Hfails.
    apply Exists_cons_tl, Exists_cons_hd. reflexivity.
Defined.

(** ** The values of a returned consensus *)

Section BinaryOutput.
Context {sitk : SimpleITK} {f64 : F64.Float64}.

Lemma threshold_stage_binary (cfg : Config) (P : Image Q) (segs : list (Image Z)) :
  Forall binary (buffer (threshold_stage cfg P segs)).
Proof.
  unfold threshold_stage. destruct (do_adaptive_thresholding cfg).
  - unfold adaptive_staple_threshold.
    destruct (compute_optimal_thresholds P segs) as [lower higher]. simpl.
    apply Forall_lookup_2. intros v y Hy.
    apply lookup_zip_with_Some in Hy. destruct Hy as (p & t & -> & _ & _).
    apply of_bool_binary.
  - simpl. apply Forall_fmap, Forall_true. intros p. apply of_bool_binary.
Qed.

Lemma try_enhance_binary (consensus : Image Z) (segs : list (Image Z))
    (original_image : Image Q) (enhanced : Image Z) :
  try_enhance consensus segs original_image = Ok enhanced ->
  Forall binary (buffer enhanced).
Proof.
  unfold try_enhance.
  destruct (analyze_vessel_characteristics segs original_image) as [e|stats]; simpl;
    [discriminate|].
  unfold enhance_vessel_connectivity.
  destruct (recommended_radius_mm stats); [|discriminate].
  destruct (recommended_min_length_mm stats); [|discriminate].
  destruct (as_unsigned 32 _) as [e|kernel_radius]; simpl; [discriminate|].
  destruct (as_unsigned 64 _) as [e|min_object_size]; simpl; [discriminate|].
  intros Hc. rewrite (CopyInformation_buffer _ _ _ Hc). simpl.
  apply Forall_fmap, Forall_true. intros x. apply of_bool_binary.
Qed.

(** X3: every image a run returns is a binary mask, in every configuration
    and whatever the library filters compute. *)
Theorem returned_consensus_is_binary (src : string) (paths : list string) (out : string)
    (cfg : Config) (w w' : World) (img : Image Z) :
  create_staple_consensus src paths out cfg w = (Ok (Some img), w') ->
  Forall (fun x => x = 0 \/ x = 1) (buffer img).
Proof.
  unfold create_staple_consensus.
  destruct (length paths <? 2)%nat; [discriminate|].
  destruct (ReadImage w src) as [e|original]; [discriminate|].
  destruct (read_segmentations original paths w) as [[e|segs] w1]; [discriminate|].
  destruct segs as [|seg segs]; [discriminate|].
  unfold fuse_and_save.
  destruct (verify_spatial_consistency original (seg :: segs)); [discriminate|].
  set (pre := if do_preprocessing cfg then _ else _).
  pose proof (threshold_stage_binary cfg (STAPLE 1 pre) pre) as Hbin.
  destruct (enhancement_stage cfg out (threshold_stage cfg (STAPLE 1 pre) pre) pre original w1)
    as [consensus w2] eqn:Hstage.
  assert (Hcons : Forall binary (buffer consensus)).
  { unfold enhancement_stage in Hstage. destruct (do_vessel_enhancement cfg).
    - destruct (try_enhance _ pre original) as [e|enhanced] eqn:Htry;
        injection Hstage as <- _; [exact Hbin | exact (try_enhance_binary _ _ _ _ Htry)].
    - injection Hstage as <- _. exact Hbin. }
  destruct (CopyInformation consensus original) as [e|copied] eqn:Hcopy; [discriminate|].
  destruct (WriteImage copied out w2) as [[e|?] w3]; [discriminate|].
  intros Hr. injection Hr as <- _.
  rewrite (CopyInformation_buffer _ _ _ Hcopy). exact Hcons.
Qed.

End BinaryOutput.

Lemma returned_consensus_is_binary_witness :
  exists img w',
    create_staple_consensus (sitk := Toy.toy_sitk) "img" ["a"; "b"] "out"
      (mk_Config (1 # 2) true true true) demo_world = (Ok (Some img), w') /\
    Forall (fun x => x = 0 \/ x = 1) (buffer img).
Proof.
  eexists _, _. split.
  - vm_compute. reflexivity.
  - eapply (returned_consensus_is_binary (sitk := Toy.toy_sitk) "img" ["a"; "b"] "out"
              (mk_Config (1 # 2) true true true) demo_world).
    vm_compute. reflexivity.
Defined.

(** ** Reading the masks *)

Section ReadingMasks.
Context {sitk : SimpleITK} {f64 : F64.Float64}.

(** X5: what reading one existing mask file gives, for a file with at
    least one voxel.  A float volume is never rejected for its values: when
    its size is that of the reference image it is accepted, normalized and
    given the header of the reference; when its size differs, the read fails
    on the size, before the spatial validator is reached.  An integer volume
    with more than two distinct values (a multi-label file) is rejected:
    normalization fails in the threshold filter.  An integer volume with at
    most two distinct values is treated like a float one, its positive
    voxels being the foreground. *)
Theorem read_one_outcome (w : World) (original_image : Image Q) (seg_path : string) :
  (forall raw : Image Q,
     fs w !! seg_path = Some (Volume raw) ->
     buffer raw <> [] ->
     read_one w original_image seg_path =
       if decide (GetSize raw = GetSize original_image)
       then Ok (mk_Image (GetSize raw) (GetSpacing original_image) (GetOrigin original_image)
                         (GetDirection original_image) (buffer (convert_to_binary_mask raw)))
       else raise (SitkError SizeMismatch)) /\
  (forall raw : Image Z,
     fs w !! seg_path = Some (IntegerVolume raw) ->
     buffer raw <> [] ->
     read_one w original_image seg_path =
       if (2 <? length (Num.np_unique (buffer raw)))%nat
       then raise (SitkError ThresholdOutOfRange)
       else if decide (GetSize raw = GetSize original_image)
            then Ok (mk_Image (GetSize raw) (GetSpacing original_image)
                              (GetOrigin original_image) (GetDirection original_image)
                              (map (fun x => of_bool (0 <? x)) (buffer raw)))
            else raise (SitkError SizeMismatch)).
Proof.
  split; intros raw Hfile Hne.
  - exact (read_one_float _ _ _ _ Hfile Hne).
  - exact (read_one_integer _ _ _ _ Hfile Hne).
Qed.

Lemma read_one_same_disk (w1 w2 : World) (original_image : Image Q) (seg_path : string) :
  fs w1 = fs w2 ->
  read_one w1 original_image seg_path = read_one w2 original_image seg_path.
Proof. intros Hfs. unfold read_one, ReadTypedImage. rewrite Hfs. reflexivity. Qed.

Lemma path_exists_same_disk (w1 w2 : World) (path : string) :
  fs w1 = fs w2 -> path_exists w1 path = path_exists w2 path.
Proof. intros Hfs. unfold path_exists. rewrite Hfs. reflexivity. Qed.

Lemma read_segmentations_skip (original_image : Image Q) (paths : list string) :
  forall (w w' : World) (r : result (list (Image Z))),
    read_segmentations original_image paths w = (r, w') ->
    (forall w2 : World,
       fs w2 = fs w ->
       fst (read_segmentations original_image (List.filter (path_exists w) paths) w2) = r) /\
    (forall segs : list (Image Z),
       r = Ok segs ->
       stdout w' = stdout w ++ map SegmentationFileNotFound
                                   (List.filter (fun p => negb (path_exists w p)) paths) /\
       length segs = length (List.filter (path_exists w) paths)).
Proof.
  induction paths as [|seg_path rest IH]; intros w w' r Hr.
  - simpl in Hr. injection Hr as <- <-. split.
    + intros w2 _. reflexivity.
    + intros segs Hs. injection Hs as <-. simpl. rewrite app_nil_r. auto.
  - simpl in Hr. simpl List.filter.
    destruct (path_exists w seg_path) eqn:Hex; simpl in Hr |- *.
    + destruct (read_one w original_image seg_path) as [e0|seg] eqn:Hone.
      * injection Hr as <- <-. split.
        -- intros w2 Hfs. simpl.
           rewrite (path_exists_same_disk w2 w _ Hfs), Hex. simpl.
           rewrite (read_one_same_disk w2 w _ _ Hfs), Hone. reflexivity.
        -- intros segs Hs. discriminate.
      * destruct (read_segmentations original_image rest w) as [[e1|segs1] w1] eqn:Hrest;
          injection Hr as <- <-;
          destruct (IH _ _ _ Hrest) as [Hsame Hout].
        -- split; [|intros segs Hs; discriminate].
           intros w2 Hfs. simpl.
           rewrite (path_exists_same_disk w2 w _ Hfs), Hex. simpl.
           rewrite (read_one_same_disk w2 w _ _ Hfs), Hone.
           specialize (Hsame w2 Hfs).
           destruct (read_segmentations original_image (List.filter (path_exists w) rest) w2)
             as [r2 w3]. simpl in Hsame. subst r2. reflexivity.
        -- split.
           ++ intros w2 Hfs. simpl.
              rewrite (path_exists_same_disk w2 w _ Hfs), Hex. simpl.
              rewrite (read_one_same_disk w2 w _ _ Hfs), Hone.
              specialize (Hsame w2 Hfs).
              destruct (read_segmentations original_image (List.filter (path_exists w) rest) w2)
                as [r2 w3]. simpl in Hsame. subst r2. reflexivity.
           ++ intros segs Hs. injection Hs as <-.
              destruct (Hout segs1 eq_refl) as [Hlines Hlen]. simpl. split; [exact Hlines | lia].
    + destruct (IH _ _ _ Hr) as [Hsame Hout]. split.
      * intros w2 Hfs. apply Hsame. exact Hfs.
      * intros segs Hs. destruct (Hout segs Hs) as [Hlines Hlen].
        split; [|exact Hlen]. rewrite Hlines. simpl. rewrite <- app_assoc. reflexivity.
Qed.

(** X6: mask files that do not exist are skipped, and only reported.
    Reading a list of paths gives the result of reading the existing ones
    alone; when it succeeds there is one mask per existing path, and one
    line has been printed per missing path, in order. *)
Theorem missing_masks_are_skipped (original_image : Image Q) (paths : list string)
    (w : World) :
  let present := List.filter (path_exists w) paths in
  let missing := List.filter (fun p => negb (path_exists w p)) paths in
  fst (read_segmentations original_image paths w)
    = fst (read_segmentations original_image present w) /\
  forall (segs : list (Image Z)) (w' : World),
    read_segmentations original_image paths w = (Ok segs, w') ->
    length segs = length present /\
    fs w' = fs w /\
    stdout w' = stdout w ++ map SegmentationFileNotFound missing.
Proof.
  intros present missing.
  destruct (read_segmentations original_image paths w) as [r w1] eqn:Hread.
  destruct (read_segmentations_skip _ _ _ _ _ Hread) as [Hsame Hout]. split.
  - simpl. symmetry. apply Hsame. reflexivity.
  - intros segs w' Hr. injection Hr as -> <-.
    destruct (Hout segs eq_refl) as [Hlines Hlen].
    split; [exact Hlen|]. split; [|exact Hlines].
    exact (proj1 (read_segmentations_disk _ _ _ _ _ Hread)).
Qed.

End ReadingMasks.

Lemma read_one_outcome_witness :
  read_one label_world label_reference "float" = Ok (Toy.row [0; 0; 1]) /\
  read_one label_world label_reference "labels"
    = raise (SitkError ThresholdOutOfRange) /\
  read_one label_world label_reference "mask" = Ok (Toy.row [0; 1; 1]).
Proof.
  pose proof (read_one_outcome label_world label_reference "float") as [Hfloat _].
  pose proof (read_one_outcome label_world label_reference "labels") as [_ Hlabels].
  pose proof (read_one_outcome label_world label_reference "mask") as [_ Hmask].
  split; [|split].
  - rewrite (Hfloat (Toy.row [0; 1; 2]%Q) eq_refl); [reflexivity | discriminate].
  - rewrite (Hlabels (Toy.row [0; 1; 2]) eq_refl); [reflexivity | discriminate].
  - rewrite (Hmask (Toy.row [0; 2; 2]) eq_refl); [reflexivity | discriminate].
Defined.

(** ** The errors of a run *)

Section PipelineErrors.
Context {sitk : SimpleITK} {f64 : F64.Float64}.

Lemma read_segmentations_fails (original_image : Image Q) (paths : list string) :
  forall (w w' : World) (e : exn),
    nonempty_volumes w ->
    read_segmentations original_image paths w = (raise e, w') ->
    exists seg_path,
      In seg_path paths /\
      (e = ErrorReading seg_path (SitkError CannotRead) \/
       e = ErrorReading seg_path (SitkError SizeMismatch) \/
       e = ErrorReading seg_path (SitkError ThresholdOutOfRange)).
Proof.
  induction paths as [|seg_path rest IH]; intros w w' e Hw; simpl.
  - discriminate.
  - destruct (path_exists w seg_path); simpl.
    + destruct (read_one w original_image seg_path) as [e0|seg] eqn:Hone.
      * intros He. injection He as <- _. exists seg_path. split; [left; reflexivity|].
        destruct (read_one_fails _ _ _ _ Hw Hone) as [-> | [-> | ->]]; auto.
      * destruct (read_segmentations original_image rest w) as [[e1|segs] w1] eqn:Hrest;
          [|discriminate].
        intros He. injection He as <- _.
        destruct (IH _ _ _ Hw Hrest) as (p & Hin & Hp). exists p. split; [right|]; assumption.
    + intros He.
      assert (Hw' : nonempty_volumes (print (SegmentationFileNotFound seg_path) w))
        by exact Hw.
      destruct (IH (print (SegmentationFileNotFound seg_path) w) w' e Hw' He)
        as (p & Hin & Hp).
      exists p. split; [right|]; assumption.
Qed.

(** X4: the errors a run can end in, on a disk whose volumes have at least
    one voxel.  Fewer than two paths; an unreadable reference image; a mask
    file that exists and cannot be read, or has another size than the
    reference, or on which normalization fails in the threshold filter (an
    integer volume with more than two distinct values); a reference image
    that is not 3-D; a consensus of another size than the reference; a
    failed write.  In particular a run never fails on the dimensions or the
    spacing of a mask in the spatial validator, in the check of the values
    of a normalized mask, or in the enhancement. *)
Theorem pipeline_errors (src : string) (paths : list string) (out : string)
    (cfg : Config) (w : World) (e : exn) :
  nonempty_volumes w ->
  fst (create_staple_consensus src paths out cfg w) = raise e ->
  (e = AtLeastTwoSegmentations /\ (length paths < 2)%nat) \/
  e = ErrorReadingOriginal src (SitkError CannotRead) \/
  (exists seg_path,
     In seg_path paths /\
     (e = ErrorReading seg_path (SitkError CannotRead) \/
      e = ErrorReading seg_path (SitkError SizeMismatch) \/
      e = ErrorReading seg_path (SitkError ThresholdOutOfRange))) \/
  (exists dim, dim <> 3%nat /\ e = Expected3D dim) \/
  e = SitkError SizeMismatch \/
  (e = ErrorSaving (SitkError CannotWrite) /\ writable w out = false).
Proof.
  intros Hw. unfold create_staple_consensus.
  destruct (length paths <? 2)%nat eqn:Hlen; simpl.
  { intros He. injection He as <-. left. split; [reflexivity|]. apply Nat.ltb_lt, Hlen. }
  destruct (ReadImage w src) as [e0|original] eqn:Ho; simpl.
  { intros He. injection He as <-. right; left.
    rewrite (ReadImage_error _ _ _ Ho). reflexivity. }
  destruct (read_segmentations original paths w) as [[e1|segs] w1] eqn:Hr; simpl.
  { intros He. injection He as <-. right; right; left.
    exact (read_segmentations_fails _ _ _ _ _ Hw Hr). }
  destruct (read_segmentations_disk _ _ _ _ _ Hr) as [Hfs Hwr].
  destruct segs as [|seg segs]; simpl; [discriminate|].
  unfold fuse_and_save.
  rewrite (validation_of_read_masks original paths w w1 (seg :: segs) Hr) by discriminate.
  destruct (length (GetSize original) =? 3)%nat eqn:Hdim.
  - cbv beta iota delta [Ok].
    destruct (enhancement_stage _ _ _ _ _ _) as [consensus w2] eqn:Hstage.
    destruct (enhancement_stage_disk _ _ _ _ _ _ _ _ Hstage) as [Hfs2 Hwr2].
    destruct (CopyInformation consensus original) as [e2|copied] eqn:Hcopy; simpl.
    { intros He. injection He as <-. do 4 right. left.
      exact (CopyInformation_error _ _ _ Hcopy). }
    unfold WriteImage. destruct (writable w2 out) eqn:Hwrite; simpl; [discriminate|].
    intros He. injection He as <-. do 5 right. split; [reflexivity|].
    rewrite <- Hwr, <- Hwr2. exact Hwrite.
  - simpl. intros He. injection He as <-. do 3 right. left.
    exists (length (GetSize original)). split; [|reflexivity].
    apply Nat.eqb_neq. exact Hdim.
Qed.

End PipelineErrors.

Lemma label_world_nonempty : nonempty_volumes label_world.
Proof.
  split; intros path img; unfold label_world; simpl;
    rewrite !lookup_insert; repeat case_decide; try discriminate;
    intros Hfile; injection Hfile as <-; discriminate.
Qed.

Lemma pipeline_errors_witness :
  let run := create_staple_consensus (sitk := Toy.toy_sitk) "img" ["mask"; "labels"] "out"
               (mk_Config (1 # 2) true true true) label_world in
  let e := ErrorReading "labels" (SitkError ThresholdOutOfRange) in
  fst run = raise e /\
  ((e = AtLeastTwoSegmentations /\ (length ["mask"; "labels"] < 2)%nat) \/
   e = ErrorReadingOriginal "img" (SitkError CannotRead) \/
   (exists seg_path,
      In seg_path ["mask"; "labels"] /\
      (e = ErrorReading seg_path (SitkError CannotRead) \/
       e = ErrorReading seg_path (SitkError SizeMismatch) \/
       e = ErrorReading seg_path (SitkError ThresholdOutOfRange))) \/
   (exists dim, dim <> 3%nat /\ e = Expected3D dim) \/
   e = SitkError SizeMismatch \/
   (e = ErrorSaving (SitkError CannotWrite) /\ writable label_world "out" = false)).
Proof.
  intros run e. split; [reflexivity|].
  apply (pipeline_errors (sitk := Toy.toy_sitk) "img" ["mask"; "labels"] "out"
           (mk_Config (1 # 2) true true true) label_world e).
  - exact label_world_nonempty.
  - reflexivity.
Defined.

(** ** More on the thresholds *)

Section ThresholdLevels.

Lemma adaptive_old_lookup (P : Image Q) (segs : list (Image Z)) (v : nat) (p : Q) :
  same_shape P segs -> unsigned segs ->
  buffer P !! v = Some p ->
  buffer (adaptive_staple_threshold_old P segs) !! v =
    Some (of_bool (Num.Qltb (if in_candidate segs v then Num.double_0_4 else Num.double_0_6) p)).
Proof.
  intros Hshape Huns Hp. unfold adaptive_staple_threshold_old. simpl.
  pose proof (vessel_mask_is_or P segs Hshape Huns) as Hmask.
  unfold vessel_mask_of in Hmask. simpl in Hmask.
  rewrite lookup_zip_with, Hp. simpl.
  assert (Hlevels :
    map (fun s : Q => if Num.Qltb 0 s then Num.double_0_4 else Num.double_0_6)
        (fold_left (fun acc seg => accumulate acc (buffer seg)) segs
                   (map (fun _ => 0%Q) (buffer P)))
    = map (fun m : bool => if m then Num.double_0_4 else Num.double_0_6)
          (map (fun s => Num.Qltb 0 s)
               (fold_left (fun acc seg => accumulate acc (buffer seg)) segs
                          (map (fun _ => 0%Q) (buffer P))))).
  { rewrite map_map. reflexivity. }
  rewrite Hlevels, Hmask.
  rewrite !list_lookup_fmap, lookup_seq_lt by (eapply lookup_lt_Some; eassumption).
  simpl. destruct (in_candidate segs v); reflexivity.
Qed.

(** X7: the earlier thresholding marks voxel [v] exactly when it lies in
    the candidate region (the logical OR of the masks) and its probability
    exceeds 0.4, or lies outside and its probability exceeds 0.6, the two
    levels being the doubles of these literals.  So, against a flat cut at
    0.5, it keeps every voxel of the candidate region that the flat cut
    keeps, and keeps no voxel outside it that the flat cut drops. *)
Theorem adaptive_threshold_old_rule (P : Image Q) (segs : list (Image Z)) (v : nat) (p : Q) :
  same_shape P segs -> unsigned segs ->
  buffer P !! v = Some p ->
  (buffer (adaptive_staple_threshold_old P segs) !! v = Some 1 <->
   (in_candidate segs v = true /\ (Num.double_0_4 < p)%Q) \/
   (in_candidate segs v = false /\ (Num.double_0_6 < p)%Q)) /\
  (in_candidate segs v = true ->
   buffer (Greater P (1 # 2)) !! v = Some 1 ->
   buffer (adaptive_staple_threshold_old P segs) !! v = Some 1) /\
  (in_candidate segs v = false ->
   buffer (adaptive_staple_threshold_old P segs) !! v = Some 1 ->
   buffer (Greater P (1 # 2)) !! v = Some 1).
Proof.
  intros Hshape Huns Hp.
  rewrite (adaptive_old_lookup P segs v p Hshape Huns Hp), (Greater_lookup P _ v p Hp).
  rewrite !some_of_bool_1, !Qltb_lt.
  assert (H45 : (Num.double_0_4 < 1 # 2)%Q) by (unfold Qlt; simpl; lia).
  assert (H56 : (1 # 2 < Num.double_0_6)%Q) by (unfold Qlt; simpl; lia).
  destruct (in_candidate segs v); repeat split; try tauto; try discriminate.
  - intros [[_ Hlt] | [Hf _]]; [exact Hlt | discriminate].
  - intros _ Hhalf. lra.
  - intros [[Hf _] | [_ Hlt]]; [discriminate | exact Hlt].
  - intros _ Hout. lra.
Qed.



End ThresholdLevels.

Lemma adaptive_threshold_old_rule_witness :
  let P := Toy.row [Num.double_0_4; 9 # 20; 11 # 20]%Q in
  let segs := [Toy.row [1; 1; 0]; Toy.row [0; 0; 0]] in
  buffer (adaptive_staple_threshold_old P segs) = [0; 1; 0] /\
  ((buffer (adaptive_staple_threshold_old P segs) !! 1%nat = Some 1 <->
    (in_candidate segs 1 = true /\ (Num.double_0_4 < 9 # 20)%Q) \/
    (in_candidate segs 1 = false /\ (Num.double_0_6 < 9 # 20)%Q)) /\
   (in_candidate segs 1 = true ->
    buffer (Greater P (1 # 2)) !! 1%nat = Some 1 ->
    buffer (adaptive_staple_threshold_old P segs) !! 1%nat = Some 1) /\
   (in_candidate segs 1 = false ->
    buffer (adaptive_staple_threshold_old P segs) !! 1%nat = Some 1 ->
    buffer (Greater P (1 # 2)) !! 1%nat = Some 1)).
Proof.
  split; [reflexivity|].
  apply (adaptive_threshold_old_rule
           (Toy.row [Num.double_0_4; 9 # 20; 11 # 20]%Q)
           [Toy.row [1; 1; 0]; Toy.row [0; 0; 0]]
           1%nat (9 # 20)%Q).
  - repeat constructor.
  - repeat constructor; simpl; lia.
  - reflexivity.
Defined.


(** ** More on normalization and the value check *)

Section NormalizationAgain.

(** The distinct values of a float array that holds only 0 and 1. *)
Lemma count_unique_binary (arr : list Z) :
  Forall binary arr ->
  Num.count_unique (map inject_Z arr) =
    ((if Num.Qmem 0 (map inject_Z arr) then 1 else 0)
     + (if Num.Qmem 1 (map inject_Z arr) then 1 else 0))%nat.
Proof.
  induction 1 as [|x arr Hx _ IH]; [reflexivity|].
  cbn [map Num.count_unique Num.Qmem]. rewrite IH.
  destruct Hx as [-> | ->];
    change (inject_Z 0) with 0%Q; change (inject_Z 1) with 1%Q;
    destruct (Num.Qmem 0 (map inject_Z arr)), (Num.Qmem 1 (map inject_Z arr));
    reflexivity.
Qed.

(** X10: normalization is idempotent: a mask that has been normalized,
    written as a volume and normalized again is the same mask, header and
    voxels; and so is the [uint8] mask itself when it is normalized
    again. *)
Theorem convert_to_binary_mask_idempotent (seg : Image Q) :
  convert_to_binary_mask (pixelwise inject_Z (convert_to_binary_mask seg))
    = convert_to_binary_mask seg /\
  convert_to_binary_mask_typed (IntegerImage (convert_to_binary_mask seg))
    = Ok (convert_to_binary_mask seg).
Proof.
  pose proof (convert_binary seg) as Hbin.
  set (mask := convert_to_binary_mask seg) in *.
  assert (Hsame : map (fun x => of_bool (0 <? x)) (buffer mask) = buffer mask).
  { clear -Hbin. induction Hbin as [|x voxels Hx _ IH]; [reflexivity|].
    cbn [map]. rewrite IH. f_equal. destruct Hx as [-> | ->]; reflexivity. }
  split.
  - unfold convert_to_binary_mask at 1.
    cbn [GetArrayFromImage data pixelwise buffer].
    rewrite (count_unique_binary _ Hbin).
    assert (Hfew : (2 <? (if Num.Qmem 0 (map inject_Z (buffer mask)) then 1 else 0)
                         + (if Num.Qmem 1 (map inject_Z (buffer mask)) then 1 else 0))%nat
                   = false).
    { apply Nat.ltb_ge.
      destruct (Num.Qmem 0 (map inject_Z (buffer mask))),
               (Num.Qmem 1 (map inject_Z (buffer mask))); simpl; lia. }
    rewrite Hfew. unfold Greater, pixelwise.
    cbn [GetSize GetSpacing GetOrigin GetDirection buffer].
    destruct mask as [size spacing origin direction voxels]. cbn in *. f_equal.
    rewrite map_map. rewrite <- Hsame at 2. apply map_ext_Forall.
    eapply Forall_impl; [exact Hbin|]. intros x [-> | ->]; reflexivity.
  - cbn [convert_to_binary_mask_typed]. rewrite convert_integer_outcome.
    assert (Hfew : (2 <? length (Num.np_unique (buffer mask)))%nat = false).
    { apply Nat.ltb_ge. destruct (buffer mask) as [|x voxels] eqn:Hvoxels; [simpl; lia|].
      rewrite <- Hvoxels in *.
      destruct (np_unique_binary (buffer mask) Hbin) as [Hu | [Hu | Hu]];
        [rewrite Hvoxels; discriminate | rewrite Hu; simpl; lia ..]. }
    rewrite Hfew. f_equal. unfold GreaterZ, pixelwise. rewrite Hsame.
    destruct mask; reflexivity.
Qed.

(** X11: what becomes of a voxel of value 1.  In a float volume with at
    most two distinct values it is foreground; in a float volume with more
    values it falls below the cut and is background.  In an integer volume
    with at most two distinct values it is foreground; in an integer volume
    with more values (a multi-label file) normalization fails and gives no
    mask at all. *)
Theorem label_one_depends_on_levels (v : nat) :
  (forall (seg : Image Q) (x : Q),
     buffer seg !! v = Some x -> (x == 1)%Q ->
     (buffer (convert_to_binary_mask seg) !! v = Some 1 <->
      (Num.count_unique (buffer seg) <= 2)%nat) /\
     (buffer (convert_to_binary_mask seg) !! v = Some 0 <->
      (2 < Num.count_unique (buffer seg))%nat)) /\
  (forall seg : Image Z,
     buffer seg !! v = Some 1 ->
     ((length (Num.np_unique (buffer seg)) <= 2)%nat ->
      exists mask,
        convert_to_binary_mask_integer seg = Ok mask /\ buffer mask !! v = Some 1) /\
     ((2 < length (Num.np_unique (buffer seg)))%nat ->
      convert_to_binary_mask_integer seg = raise (SitkError ThresholdOutOfRange))).
Proof.
  split.
  - intros seg x Hx H1. rewrite (convert_lookup seg v x Hx).
    assert (Hcut : Qle_bool Num.double_1_1 x = false).
    { apply Qle_bool_false. rewrite H1. unfold Qlt. simpl. lia. }
    assert (Hpos : Num.Qltb 0 x = true).
    { apply Qltb_lt. rewrite H1. unfold Qlt. simpl. lia. }
    rewrite Hcut, Hpos.
    destruct (2 <? Num.count_unique (buffer seg))%nat eqn:Hmany; simpl.
    + apply Nat.ltb_lt in Hmany.
      split; split; intros H0; try discriminate; try reflexivity; lia.
    + apply Nat.ltb_ge in Hmany.
      split; split; intros H0; try discriminate; try reflexivity; lia.
  - intros seg Hx. rewrite convert_integer_outcome. split.
    + intros Hfew. apply Nat.ltb_ge in Hfew. rewrite Hfew.
      eexists. split; [reflexivity|]. simpl. rewrite list_lookup_fmap, Hx. reflexivity.
    + intros Hmany. apply Nat.ltb_lt in Hmany. rewrite Hmany. reflexivity.
Qed.

Lemma in_insert_unique (x y : Z) (xs : list Z) :
  In y (Num.insert_unique x xs) <-> y = x \/ In y xs.
Proof.
  induction xs as [|z xs IH]; simpl.
  - split; intros [H0 | H0]; auto.
  - destruct (Z.ltb_spec x z); simpl.
    + split; intros H0; intuition auto.
    + destruct (Z.eqb_spec x z) as [-> | Hne]; simpl.
      * split; intros H0; intuition auto.
      * rewrite IH. split; intros H0; intuition auto.
Qed.

Lemma in_np_unique (y : Z) (arr : list Z) : In y (Num.np_unique arr) <-> In y arr.
Proof.
  unfold Num.np_unique. induction arr as [|x arr IH]; simpl; [tauto|].
  fold (Num.np_unique arr) in *. rewrite in_insert_unique, IH.
  split; intros [H0 | H0]; auto.
Qed.

(** X12: the value check accepts exactly the masks that have at least one
    voxel and no value other than 0 and 1; any other mask, the empty one
    included, is reported with its distinct values. *)
Theorem verify_segmentation_values_spec (seg : Image Z) :
  (verify_segmentation_values seg = Ok tt <->
   buffer seg <> [] /\ Forall (fun x => x = 0 \/ x = 1) (buffer seg)) /\
  (verify_segmentation_values seg <> Ok tt ->
   verify_segmentation_values seg = raise (NonBinaryValues (Num.np_unique (buffer seg)))).
Proof.
  split.
  - split.
    + unfold verify_segmentation_values. cbn [GetArrayFromImage data].
      intros Hok.
      assert (Hu : Num.np_unique (buffer seg) = [0; 1] \/ Num.np_unique (buffer seg) = [0]
                   \/ Num.np_unique (buffer seg) = [1]).
      { destruct (bool_decide (Num.np_unique (buffer seg) = [0; 1])) eqn:H01;
          [left; apply bool_decide_eq_true in H01; exact H01|].
        destruct (bool_decide (Num.np_unique (buffer seg) = [0])) eqn:H0;
          [right; left; apply bool_decide_eq_true in H0; exact H0|].
        destruct (bool_decide (Num.np_unique (buffer seg) = [1])) eqn:H1;
          [right; right; apply bool_decide_eq_true in H1; exact H1|].
        simpl in Hok. discriminate. }
      split.
      * intros Hnil. rewrite Hnil in Hu. destruct Hu as [Hu | [Hu | Hu]]; discriminate.
      * apply List.Forall_forall. intros x Hin. apply in_np_unique in Hin.
        destruct Hu as [Hu | [Hu | Hu]]; rewrite Hu in Hin; simpl in Hin; intuition auto.
    + intros [Hne Hbin]. apply verify_binary; assumption.
  - unfold verify_segmentation_values. cbn [GetArrayFromImage data].
    destruct (negb _ && negb _ && negb _); [reflexivity | congruence].
Qed.

End NormalizationAgain.

Lemma label_one_depends_on_levels_witness :
  let seg := Toy.row [0; 1; 2]%Q in
  let labels := Toy.row [0; 1; 2] in
  ((buffer (convert_to_binary_mask seg) !! 1%nat = Some 1 <->
    (Num.count_unique (buffer seg) <= 2)%nat) /\
   (buffer (convert_to_binary_mask seg) !! 1%nat = Some 0 <->
    (2 < Num.count_unique (buffer seg))%nat)) /\
  convert_to_binary_mask_integer labels = raise (SitkError ThresholdOutOfRange).
Proof.
  intros seg labels.
  pose proof (label_one_depends_on_levels 1%nat) as [Hfloat Hinteger]. split.
  - apply (Hfloat seg 1%Q); reflexivity.
  - apply (Hinteger labels eq_refl). vm_compute. lia.
Defined.

(** ** What the spatial validator looks at *)

Section ValidatorInputs.

Lemma verify_from_same_geometry (ref_size : list Z) (ref_spacing : list Q) :
  forall (segs segs' : list (Image Z)) (i : nat),
    map GetSize segs = map GetSize segs' ->
    map GetSpacing segs = map GetSpacing segs' ->
    verify_from ref_size ref_spacing i segs = verify_from ref_size ref_spacing i segs'.
Proof.
  induction segs as [|seg segs IH]; intros [|seg' segs'] i Hsize Hsp;
    simpl in Hsize, Hsp; try discriminate; [reflexivity|].
  injection Hsize as Hs Hsize. injection Hsp as Hp Hsp. simpl.
  rewrite Hs, Hp, (IH segs' (S i) Hsize Hsp). reflexivity.
Qed.

(** X13: the validator compares sizes and spacings and nothing else.  Two
    calls whose images agree in size and spacing end the same way, whatever
    the origins, the directions and the voxels are: a mask that is shifted
    or rotated against the reference is not detected. *)
Theorem verify_spatial_consistency_reads_size_and_spacing
    (reference_image reference_image' : Image Q) (segs segs' : list (Image Z)) :
  GetSize reference_image = GetSize reference_image' ->
  GetSpacing reference_image = GetSpacing reference_image' ->
  map GetSize segs = map GetSize segs' ->
  map GetSpacing segs = map GetSpacing segs' ->
  verify_spatial_consistency reference_image segs
    = verify_spatial_consistency reference_image' segs'.
Proof.
  intros Hrs Hrp Hs Hp. unfold verify_spatial_consistency. rewrite <- Hrs, <- Hrp.
  destruct segs as [|seg segs], segs' as [|seg' segs']; try discriminate; [reflexivity|].
  destruct (negb (length (GetSize reference_image) =? 3)%nat); [reflexivity|].
  apply verify_from_same_geometry; assumption.
Qed.

End ValidatorInputs.

Lemma verify_spatial_consistency_reads_size_and_spacing_witness :
  let shifted := mk_Image [2; 1; 1] Toy.unit_spacing [50; 0; 0]%Q
                          [0; 1; 0; 1; 0; 0; 0; 0; 1]%Q [1; 1] in
  verify_spatial_consistency demo_reference [shifted]
    = verify_spatial_consistency demo_reference [Toy.volume Toy.unit_spacing [0; 1]] /\
  verify_spatial_consistency demo_reference [shifted] = Ok tt.
Proof.
  intros shifted. split; [|reflexivity].
  apply (verify_spatial_consistency_reads_size_and_spacing
           demo_reference demo_reference [shifted] [Toy.volume Toy.unit_spacing [0; 1]]);
    reflexivity.
Defined.

(** ** When the vessel statistics are defined *)

Section StatisticsDefined.
Context {sitk : SimpleITK} {f64 : F64.Float64}.

Lemma analyze_one_defined (spacing : list Q) (seg : Image Z) :
  ~ no_component seg -> exists stats, analyze_one spacing seg = Ok stats.
Proof.
  unfold no_component, analyze_one. intros Hsome.
  destruct (LabelShapeStatistics (ConnectedComponent seg)) as [|label labels];
    [congruence|]. simpl. eauto.
Qed.

Lemma analyze_each_defined (spacing : list Q) (segs : list (Image Z)) :
  Forall (fun seg => ~ no_component seg) segs ->
  exists stats, analyze_each spacing segs = Ok stats /\ length stats = length segs.
Proof.
  induction 1 as [|seg segs Hseg _ [stats [IH Hlen]]].
  - exists []. auto.
  - destruct (analyze_one_defined spacing seg Hseg) as [st Hst].
    exists (st :: stats). simpl. rewrite Hst, IH. simpl. auto.
Qed.

(** X14: the vessel statistics exist exactly when every mask has a
    connected component.  One mask without any makes the analysis fail (on
    the minimum of an empty list); otherwise it succeeds with one entry per
    mask, and for a non-empty list of masks the three recommended values
    are numbers.  For an empty list they are [nan]. *)
Theorem analyze_vessel_characteristics_defined (segs : list (Image Z))
    (original_image : Image Q) :
  (Exists no_component segs ->
   analyze_vessel_characteristics segs original_image = raise ZeroSizeReduction) /\
  (Forall (fun seg => ~ no_component seg) segs ->
   exists stats,
     analyze_vessel_characteristics segs original_image = Ok stats /\
     length (detailed_stats stats) = length segs /\
     (segs <> [] ->
      is_Some (recommended_radius_mm stats) /\
      is_Some (recommended_min_length_mm stats) /\
      is_Some (recommended_min_volume_mm3 stats)) /\
     (segs = [] ->
      recommended_radius_mm stats = None /\
      recommended_min_length_mm stats = None /\
      recommended_min_volume_mm3 stats = None)).
Proof.
  split.
  - intros Hex. unfold analyze_vessel_characteristics.
    rewrite (analyze_each_no_component _ _ Hex). reflexivity.
  - intros Hall. unfold analyze_vessel_characteristics.
    destruct (analyze_each_defined (GetSpacing original_image) segs Hall) as [sts [Hsts Hlen]].
    rewrite Hsts. simpl. eexists. split; [reflexivity|]. simpl.
    split; [exact Hlen|]. split.
    + intros Hne. destruct segs as [|seg segs]; [congruence|].
      destruct sts as [|st sts]; [discriminate|]. simpl. unfold Num.np_median. simpl. eauto.
    + intros ->. destruct sts; [|discriminate]. auto.
Qed.

End StatisticsDefined.

(** ** The parameters of a dataset *)

Section Parameters.


End Parameters.

(** ** The path of the base output *)

Section BasePath.

Lemma prefix_app (old s : string) :
  String.prefix old s = true -> exists post, s = String.append old post.
Proof.
  revert s. induction old as [|a old IH]; intros s.
  - intros _. exists s. reflexivity.
  - destruct s as [|b s]; simpl; [discriminate|].
    destruct (Ascii.ascii_dec a b) as [-> | Hne]; [|discriminate].
    intros Hp. destruct (IH s Hp) as [post ->]. exists post. reflexivity.
Qed.

Lemma replace_unchanged (output_path : string) :
  replace output_path "/STAPLE/" "/STAPLE_base/" = output_path <->
  contains "/STAPLE/" output_path = false.
Proof.
  unfold replace. induction output_path as [|c s IH].
  - simpl. split; reflexivity.
  - cbn [replace_from contains].
    destruct (String.prefix "/STAPLE/" (String c s)) eqn:Hp.
    + destruct (prefix_app _ _ Hp) as [post Hs]. simpl in Hs.
      injection Hs as -> ->. simpl. split; intros Heq; discriminate.
    + simpl. rewrite <- IH. split.
      * intros Heq. injection Heq as Heq. exact Heq.
      * intros Heq. rewrite Heq. reflexivity.
Qed.

(** X16: the base run gets an output path of its own exactly when the
    output path contains "/STAPLE/".  For a path without it (a dataset
    rooted in the working directory gives "STAPLE/case.nii.gz") the
    replacement changes nothing, and the base run is given the very path
    the enhanced run has just written. *)
Theorem base_output_path_distinct {sitk : SimpleITK} {f64 : F64.Float64}
    (output_path : string) :
  (replace output_path "/STAPLE/" "/STAPLE_base/" <> output_path <->
   contains "/STAPLE/" output_path = true) /\
  (contains "/STAPLE/" output_path = false ->
   forall (kwargs : gmap string pyval) (src : string) (paths : list string) (w : World),
     compute_staple_case kwargs src paths output_path w =
       match create_staple_consensus src paths output_path (bind_kwargs kwargs) w with
       | (inl e, w1) => (inl e, w1)
       | (inr _, w1) =>
         create_staple_consensus src paths output_path (bind_kwargs (base_kwargs kwargs)) w1
       end).
Proof.
  split.
  - rewrite replace_unchanged. destruct (contains "/STAPLE/" output_path); split; congruence.
  - intros Hno kwargs src paths w. unfold compute_staple_case.
    rewrite (proj2 (replace_unchanged output_path) Hno). reflexivity.
Qed.

End BasePath.

Lemma base_output_path_distinct_witness :
  contains "/STAPLE/" "STAPLE/case.nii.gz" = false /\
  compute_staple_case (sitk := Toy.toy_sitk) (main_kwargs ∅) "img" ["a"; "b"]
    "STAPLE/case.nii.gz" demo_world =
    match create_staple_consensus (sitk := Toy.toy_sitk) "img" ["a"; "b"] "STAPLE/case.nii.gz"
            (bind_kwargs (main_kwargs ∅)) demo_world with
    | (inl e, w1) => (inl e, w1)
    | (inr _, w1) =>
      create_staple_consensus (sitk := Toy.toy_sitk) "img" ["a"; "b"] "STAPLE/case.nii.gz"
        (bind_kwargs (base_kwargs (main_kwargs ∅))) w1
    end.
Proof.
  split; [reflexivity|].
  apply (proj2 (base_output_path_distinct (sitk := Toy.toy_sitk) "STAPLE/case.nii.gz")).
  reflexivity.
Defined.

(** ** The registries *)

Section Registries.
Import Registry.

Lemma dict_get_set {V} (k k' : string) (v : V) (d : list (string * V)) :
  dict_get k' (dict_set k v d) = if (k' =? k)%string then Some v else dict_get k' d.
Proof.
  induction d as [|[k0 v0] d IH]; simpl.
  - rewrite String.eqb_sym. reflexivity.
  - destruct (String.eqb_spec k0 k) as [-> | Hne]; simpl.
    + rewrite (String.eqb_sym k k'). destruct (k' =? k)%string; reflexivity.
    + rewrite IH. destruct (String.eqb_spec k0 k') as [-> | Hne'].
      * destruct (String.eqb_spec k' k); [congruence | reflexivity].
      * reflexivity.
Qed.

Lemma dict_set_keys {V} (k : string) (v : V) (d : list (string * V)) :
  map fst (dict_set k v d) =
    if dict_contains k d then map fst d else map fst d ++ [k].
Proof.
  unfold dict_contains. induction d as [|[k0 v0] d IH]; simpl; [reflexivity|].
  destruct (String.eqb_spec k0 k) as [-> | Hne]; simpl; [reflexivity|].
  rewrite IH. destruct (dict_get k d); reflexivity.
Qed.

Lemma dict_contains_keys {V} (k : string) (d : list (string * V)) :
  dict_contains k d = true <-> In k (map fst d).
Proof.
  unfold dict_contains. induction d as [|[k0 v0] d IH]; simpl.
  - split; [discriminate | tauto].
  - destruct (String.eqb_spec k0 k) as [-> | Hne].
    + split; auto.
    + rewrite IH. split; [auto | intros [H0 | H0]; [congruence | exact H0]].
Qed.

Lemma keyed_set {V} (name : V -> string) (k : string) (v : V) (d : list (string * V)) :
  keyed name d -> name v = k -> keyed name (dict_set k v d).
Proof.
  unfold keyed. intros Hd Hv. induction Hd as [|[k0 v0] d H0 Hd IH]; simpl.
  - repeat constructor. exact Hv.
  - destruct (k0 =? k)%string; constructor; auto.
Qed.

Lemma nodup_set {V} (k : string) (v : V) (d : list (string * V)) :
  List.NoDup (map fst d) -> List.NoDup (map fst (dict_set k v d)).
Proof.
  intros Hd. rewrite dict_set_keys.
  destruct (dict_contains k d) eqn:Hc; [exact Hd|].
  apply List.NoDup_rev in Hd. rewrite <- (rev_involutive (map fst d ++ [k])).
  apply List.NoDup_rev. rewrite rev_app_distr. simpl. constructor; [|exact Hd].
  rewrite <- in_rev. intros Hin. apply dict_contains_keys in Hin. congruence.
Qed.

Lemma registered_models_invariant (configs : list ModelConfig) :
  keyed model_name (registered_models configs) /\
  List.NoDup (map fst (registered_models configs)).
Proof.
  unfold registered_models.
  assert (Hgen : forall (models : list (string * ModelConfig)),
            keyed model_name models -> List.NoDup (map fst models) ->
            keyed model_name (fold_left (fun models m => register_model m models) configs models)
            /\ List.NoDup (map fst (fold_left (fun models m => register_model m models)
                                             configs models))).
  { induction configs as [|m configs IH]; intros models Hk Hn; simpl; [auto|].
    apply IH; unfold register_model.
    - apply keyed_set; [exact Hk | reflexivity].
    - apply nodup_set. exact Hn. }
  apply Hgen; constructor.
Qed.

Lemma registered_datasets_keyed (configs : list DatasetConfig) :
  keyed unique_name (registered_datasets configs).
Proof.
  unfold registered_datasets.
  assert (Hgen : forall (datasets : list (string * DatasetConfig)),
            keyed unique_name datasets ->
            keyed unique_name
              (fold_left (fun datasets d => register_dataset d datasets) configs datasets)).
  { induction configs as [|c configs IH]; intros datasets Hk; simpl; [exact Hk|].
    apply IH. unfold register_dataset. apply keyed_set; [exact Hk | reflexivity]. }
  apply Hgen. constructor.
Qed.

Lemma find_keyed {V} (name : V -> string) (k : string) (d : list (string * V)) :
  keyed name d ->
  List.find (fun v => (name v =? k)%string) (dict_values d) = dict_get k d.
Proof.
  unfold keyed, dict_values. induction 1 as [|[k0 v0] d H0 _ IH]; simpl; [reflexivity|].
  simpl in H0. rewrite H0, IH. reflexivity.
Qed.

(** X17: on a registry filled through [register_dataset], the lookup by
    key and the search by unique name return the same configuration, for
    every name. *)
Theorem dataset_lookups_agree (configs : list DatasetConfig) (name : string) :
  get_dataset_by_unique_name (registered_datasets configs) name
    = get_dataset (registered_datasets configs) name.
Proof.
  unfold get_dataset_by_unique_name, get_dataset.
  apply find_keyed, registered_datasets_keyed.
Qed.

(** X18: registering a model and looking a name up.  The model just
    registered is found under its name, in place of any model registered
    under that name before, and every other name is found as before; after
    a series of registrations a name gives the model registered last under
    it. *)
Theorem register_then_get_model (configs : list ModelConfig) (m : ModelConfig)
    (models : list (string * ModelConfig)) (name : string) :
  get_model (register_model m models) name =
    (if (name =? model_name m)%string then Some m else get_model models name) /\
  get_model (registered_models configs) name =
    List.find (fun m => (model_name m =? name)%string) (rev configs).
Proof.
  split.
  - unfold get_model, register_model. apply dict_get_set.
  - unfold get_model. induction configs as [|c configs IH] using rev_ind; [reflexivity|].
    unfold registered_models in *. rewrite fold_left_app, rev_app_distr. simpl.
    unfold register_model at 1. rewrite dict_get_set, IH.
    rewrite (String.eqb_sym name). reflexivity.
Qed.

Lemma nodup_map_filter {A B} (g : A -> B) (f : A -> bool) (l : list A) :
  List.NoDup (map g l) -> List.NoDup (map g (List.filter f l)).
Proof.
  induction l as [|a l IH]; simpl; [auto|].
  intros Hn. apply List.NoDup_cons_iff in Hn. destruct Hn as [Hnot Hn].
  destruct (f a); simpl; [|auto].
  constructor; [|auto]. intros Hin. apply Hnot.
  apply in_map_iff in Hin. destruct Hin as (x & Hx & Hin).
  apply filter_In in Hin. apply in_map_iff. exists x. tauto.
Qed.

Lemma str_in_In (name : string) (names : list string) :
  str_in name names = true <-> In name names.
Proof.
  unfold str_in. rewrite existsb_exists. split.
  - intros (n & Hin & Heq). apply String.eqb_eq in Heq. subst. exact Hin.
  - intros Hin. exists name. split; [exact Hin | apply String.eqb_refl].
Qed.

(** X19: the raters of a dataset.  On a registry filled through
    [register_model], a name is a rater exactly when a model is registered
    under it, the dataset supports it, and it is not the base model (the
    directory of the original images); no name occurs twice.  Nothing else
    is excluded: when "STAPLE" is registered and supported, the consensus
    is itself among the raters. *)
Theorem setup_models_spec (configs : list ModelConfig) (config : DatasetConfig)
    (name : string) :
  let models := registered_models configs in
  let base_model :=
    String.append (dataset_name config) (String.append "_" (base_model_name config)) in
  (In name (setup_models models config) <->
   is_Some (get_model models name) /\
   In name (supported_models config) /\
   name <> base_model) /\
  List.NoDup (setup_models models config).
Proof.
  intros models base_model.
  destruct (registered_models_invariant configs) as [Hkeyed Hnodup].
  fold models in Hkeyed, Hnodup.
  assert (Hnames : map model_name (dict_values models) = map fst models).
  { unfold dict_values. rewrite map_map. clear Hnodup.
    induction Hkeyed as [|e d He _ IH]; simpl; [reflexivity|]. rewrite He, IH. reflexivity. }
  split.
  - unfold setup_models. fold base_model. rewrite in_map_iff. split.
    + intros (m & Hm & Hin). apply filter_In in Hin. destruct Hin as [Hin Hcond].
      apply andb_true_iff in Hcond. destruct Hcond as [Hbase Hsup].
      rewrite Hm in Hbase, Hsup. split; [|split].
      * assert (Hk : In name (map fst models)).
        { rewrite <- Hnames, <- Hm. apply in_map. exact Hin. }
        apply dict_contains_keys in Hk. unfold dict_contains, get_model in *.
        destruct (dict_get name models); [eauto | discriminate].
      * apply str_in_In. exact Hsup.
      * apply negb_true_iff, String.eqb_neq in Hbase. exact Hbase.
    + intros ([m Hm] & Hsup & Hbase).
      assert (Hfound : List.find (fun v => (model_name v =? name)%string) (dict_values models)
                       = Some m).
      { rewrite (find_keyed model_name name models Hkeyed). exact Hm. }
      apply find_some in Hfound. destruct Hfound as [Hin Heq].
      apply String.eqb_eq in Heq. exists m. split; [exact Heq|].
      apply filter_In. split; [exact Hin|]. rewrite Heq.
      apply andb_true_iff. split.
      * apply negb_true_iff, String.eqb_neq. exact Hbase.
      * apply str_in_In. exact Hsup.
  - unfold setup_models. apply nodup_map_filter. rewrite Hnames. exact Hnodup.
Qed.

End Registries.

(** ** The viewer *)

Section ViewerLayout.
Import Viewer.

(** X20: every plot of the viewer has a cell in the grid of two rows: for
    plot [i] the row is below 2, the column below [n_cols], and the subplot
    number [i + 1] is within the [n_rows * n_cols] cells. *)
Theorem every_plot_has_a_cell (n_segmentations : nat) (has_consensus : bool) (i : nat) :
  let plots := n_plots n_segmentations has_consensus in
  (i < plots)%nat ->
  (fst (cell plots i) < n_rows)%nat /\
  (snd (cell plots i) < n_cols plots)%nat /\
  (i + 1 <= n_rows * n_cols plots)%nat.
Proof.
  intros plots Hi.
  assert (Hplots : (1 <= plots)%nat).
  { unfold plots, n_plots. destruct has_consensus; lia. }
  clearbody plots. unfold cell, n_cols, n_rows. cbn [fst snd].
  pose proof (Nat.div_mod_eq (plots + 1) 2) as Hdiv.
  pose proof (Nat.mod_upper_bound (plots + 1) 2 ltac:(lia)) as Hmod.
  assert (Hcols : (1 <= (plots + 1) / 2)%nat) by lia.
  split; [|split].
  - apply Nat.Div0.div_lt_upper_bound. lia.
  - apply Nat.mod_upper_bound. lia.
  - lia.
Qed.

Lemma on_key_in_range (key : string) (val valmin valmax : Q) :
  (valmin <= valmax)%Q -> (valmin <= val <= valmax)%Q ->
  (valmin <= on_key key val valmin valmax <= valmax)%Q.
Proof.
  intros Hmm [Hlo Hhi]. unfold on_key, py_min, py_max.
  destruct ((key =? "up")%string || (key =? "right")%string).
  - destruct (Num.Qltb valmax (val + 1)) eqn:Hc.
    + lra.
    + apply Qltb_ge in Hc. lra.
  - destruct ((key =? "down")%string || (key =? "left")%string).
    + destruct (Num.Qltb (val - 1) valmin) eqn:Hc.
      * lra.
      * apply Qltb_ge in Hc. lra.
    + lra.
Qed.

(** X21: the slider never leaves the volume.  From its initial position in
    the middle, whatever keys are pressed, the slice index handed to the
    display is a valid index: at least 0 and below the number of slices. *)
Theorem slice_index_in_range (n_slices : Z) (keys : list string) :
  1 <= n_slices ->
  0 <= slice_idx (slider_after n_slices keys) < n_slices.
Proof.
  intros Hn. unfold slider_after.
  assert (Hmm : (0 <= inject_Z (n_slices - 1))%Q).
  { change 0%Q with (inject_Z 0). rewrite <- Zle_Qle. lia. }
  assert (Hinit : (0 <= inject_Z (n_slices / 2) <= inject_Z (n_slices - 1))%Q).
  { change 0%Q with (inject_Z 0). rewrite <- !Zle_Qle.
    pose proof (Z.div_pos n_slices 2 ltac:(lia) ltac:(lia)).
    pose proof (Z.mul_div_le n_slices 2 ltac:(lia)). lia. }
  assert (Hrange : forall (keys : list string) (val : Q),
            (0 <= val <= inject_Z (n_slices - 1))%Q ->
            (0 <= fold_left (fun val key => on_key key val 0 (inject_Z (n_slices - 1))) keys val
               <= inject_Z (n_slices - 1))%Q).
  { clear keys Hinit. induction keys as [|key keys IH]; intros val Hval; simpl; [exact Hval|].
    apply IH. apply on_key_in_range; assumption. }
  destruct (Hrange keys _ Hinit) as [Hlo Hhi].
  unfold slice_idx. rewrite py_int_floor by exact Hlo.
  split.
  - change 0 with (Qfloor 0). apply Qfloor_resp_le. exact Hlo.
  - apply Qfloor_resp_le in Hhi. rewrite Qfloor_Z in Hhi. lia.
Qed.

End ViewerLayout.

Lemma every_plot_has_a_cell_witness :
  (fst (Viewer.cell (Viewer.n_plots 4 true) 5) < Viewer.n_rows)%nat /\
  (snd (Viewer.cell (Viewer.n_plots 4 true) 5) < Viewer.n_cols (Viewer.n_plots 4 true))%nat /\
  (5 + 1 <= Viewer.n_rows * Viewer.n_cols (Viewer.n_plots 4 true))%nat.
Proof.
  apply (every_plot_has_a_cell 4 true 5). simpl. lia.
Defined.

Lemma slice_index_in_range_witness :
  0 <= Viewer.slice_idx (Viewer.slider_after 3 ["up"; "up"; "right"; "x"; "down"]) < 3.
Proof.
  apply (slice_index_in_range 3 ["up"; "up"; "right"; "x"; "down"]). lia.
Defined.

Lemma analyze_vessel_characteristics_defined_witness :
  analyze_vessel_characteristics (sitk := Toy.toy_sitk)
    [Toy.volume Toy.unit_spacing [0; 1]; Toy.volume Toy.unit_spacing [0; 0]] demo_reference
  = raise ZeroSizeReduction.
Proof.
  apply (proj1 (analyze_vessel_characteristics_defined (sitk := Toy.toy_sitk)
                  [Toy.volume Toy.unit_spacing [0; 1]; Toy.volume Toy.unit_spacing [0; 0]]
                  demo_reference)).
  right. left. reflexivity.
Defined.


Example modality_overrides_common_section :
  let ixi := Registry.mk_DatasetConfig "IXI" "IXI" "../VESSELVERSE_DATA_IXI/data" "IXI_TOT"
               "nii.gz" ["IXI_TOT"; "STAPLE"; "STAPLE_base"; "nnUNet"] "MR" None
               "*.nii.gz" "TOT" in
  let params :=
    mk_YamlParams (Some {[ "confidence_threshold" := PyFloat (1 # 2) ]})
                  (Some {[ "MR" := {[ "confidence_threshold" := PyFloat (3 # 5) ]} ]})
                  None None in
  (load_staple_params (Registry.registered_datasets [ixi]) params "IXI"
     ≫= (fun final => final !! "confidence_threshold")) = Some (PyFloat (3 # 5)).
Proof. vm_compute. reflexivity. Qed.
